(** * homeInfoAI: address validators and model-response parsing

    A shallow embedding of [home_info.py].

    Text.  A Python [str] is modelled as a list of Rocq [ascii] characters,
    read as the code points 0..255.  The character classes below
    ([\d], [\s], [\w], [str.lower]) are Python's, restricted to that range.
    Beyond it Python's classes are larger (other decimal digits and
    letters, and the letters that IGNORECASE takes for i, k and s); texts
    with such characters are outside this development.

    Numbers.  A Python [int] is a [Z].  A Python [float] obtained from a
    decimal literal is modelled by the exact rational the literal denotes
    (Python rounds it to the nearest double, and to infinity beyond the
    range of doubles).

    Failure.  A computation that can raise is a value of [result]; an
    exception carries its class and its [str()] text. *)

From Stdlib Require Import String Ascii List Bool Arith Lia ZArith QArith.
Import ListNotations.
Local Open Scope list_scope.
Local Open Scope nat_scope.

Set Implicit Arguments.

(* ================================================================== *)
(** ** Text and characters *)

Definition text := list ascii.

(** String literals are read as texts. *)
Definition T (s : string) : text := list_ascii_of_string s.

Definition NL : ascii := ascii_of_nat 10.

Definition in_range (lo hi : nat) (c : ascii) : bool :=
  let n := nat_of_ascii c in (lo <=? n) && (n <=? hi).

(** [\d]: the decimal digits. *)
Definition is_digit (c : ascii) : bool := in_range 48 57 c.

(** [\s], [str.isspace], and what [str.strip()] removes. *)
Definition is_space (c : ascii) : bool :=
  in_range 9 13 c || in_range 28 32 c
  || in_range 133 133 c || in_range 160 160 c.

(** [str.isalpha] on one character. *)
Definition is_alpha (c : ascii) : bool :=
  in_range 65 90 c || in_range 97 122 c
  || in_range 170 170 c || in_range 181 181 c || in_range 186 186 c
  || in_range 192 214 c || in_range 216 246 c || in_range 248 255 c.

(** [\w]: alphanumeric (alphabetic, decimal, digit or numeric) or [_]. *)
Definition is_word (c : ascii) : bool :=
  is_alpha c || is_digit c || in_range 95 95 c
  || in_range 178 179 c || in_range 185 185 c || in_range 188 190 c.

(** The class [[A-Za-z]]. *)
Definition is_ascii_letter (c : ascii) : bool :=
  in_range 65 90 c || in_range 97 122 c.

Definition is_newline (c : ascii) : bool := in_range 10 10 c.

(** [.] without DOTALL: anything but a newline. *)
Definition is_dot (c : ascii) : bool := negb (is_newline c).

Definition is_comma (c : ascii) : bool := in_range 44 44 c.

(** [[\d,]] *)
Definition is_digit_or_comma (c : ascii) : bool := is_digit c || is_comma c.

(** One character of [str.lower()]. *)
Definition lower_char (c : ascii) : ascii :=
  if in_range 65 90 c || in_range 192 214 c || in_range 216 222 c
  then ascii_of_nat (nat_of_ascii c + 32)
  else c.

(** [s.lower()] *)
Definition lower (s : text) : text := map lower_char s.

(** [s.lstrip()], [s.rstrip()] and [s.strip()] *)
Fixpoint lstrip (s : text) : text :=
  match s with
  | c :: s' => if is_space c then lstrip s' else s
  | [] => []
  end.

Definition rstrip (s : text) : text := rev (lstrip (rev s)).

Definition strip (s : text) : text := rstrip (lstrip s).

(** [s.replace(',', '')] *)
Definition remove_commas (s : text) : text :=
  filter (fun c => negb (is_comma c)) s.

(** [s.split('\n\n')]: cut at each occurrence of two consecutive newlines,
    scanning from the left; [cur] is the piece being read, reversed. *)
Fixpoint split_on_blank (cur s : text) : list text :=
  match s with
  | [] => [rev cur]
  | c :: s' =>
      match s' with
      | d :: s'' =>
          if is_newline c && is_newline d
          then rev cur :: split_on_blank [] s''
          else split_on_blank (c :: cur) s'
      | [] => [rev (c :: cur)]
      end
  end.

Definition split_blank (s : text) : list text := split_on_blank [] s.

(** Truth value of a [str]: non-empty. *)
Definition truthy (s : text) : bool :=
  match s with [] => false | _ => true end.

Definition text_eqb (a b : text) : bool :=
  if list_eq_dec ascii_dec a b then true else false.

(* ================================================================== *)
(** ** Exceptions and results *)

(** The exception classes the handlers of the source tell apart; a
    subclass counts as its handled ancestor. *)
Inductive exn_class : Type :=
| AttributeError
| ValueError
| OtherException.

Record exn : Type := Exn { exn_cls : exn_class; exn_str : text }.

Inductive result (A : Type) : Type :=
| Ok (a : A)
| Raise (e : exn).

Arguments Ok {A} a.
Arguments Raise {A} e.

Definition bind {A B : Type} (m : result A) (f : A -> result B) : result B :=
  match m with
  | Ok a => f a
  | Raise e => Raise e
  end.

Notation "x <- m ;; k" := (bind m (fun x => k))
  (at level 61, m at next level, right associativity).

(* ================================================================== *)
(** ** Regular expressions as the [re] module runs them

    The constructors are the ones the patterns of [home_info.py] use.
    Matching is by backtracking, leftmost alternative first and greedy
    repetition, as in [re]; there is one capturing group.  Where a comment
    quotes a pattern, a blank is put between a star and a closing
    parenthesis; the pattern has none. *)

Inductive regex : Type :=
| Eps                             (* the empty pattern *)
| Lit (c : ascii)                 (* a literal character *)
| Cls (p : ascii -> bool)         (* a character class *)
| Star (p : ascii -> bool)        (* [p*], greedy *)
| Seq (r1 r2 : regex)
| Alt (r1 r2 : regex)             (* [r1|r2] *)
| Opt (r : regex)                 (* [r?], greedy *)
| Group (r : regex)               (* [(r)], group 1 *)
| Bol                             (* [^] *)
| Eol                             (* [$] *)
| WordB.                          (* [\b] *)

(** [p+] *)
Definition Plus (p : ascii -> bool) : regex := Seq (Cls p) (Star p).

(** [p{n}] *)
Fixpoint Rep (n : nat) (p : ascii -> bool) : regex :=
  match n with
  | 0 => Eps
  | S n' => Seq (Cls p) (Rep n' p)
  end.

(** A literal word. *)
Fixpoint Word (w : text) : regex :=
  match w with
  | [] => Eps
  | c :: w' => Seq (Lit c) (Word w')
  end.

(** A position in the subject: the text before it (nearest character
    first), the text after it, and what group 1 holds. *)
Record mstate : Type := MState {
  before : text;
  rest : text;
  grp1 : option text
}.

(** [re.IGNORECASE] on a literal. *)
Definition lit_eq (icase : bool) (c ch : ascii) : bool :=
  if icase then Ascii.eqb (lower_char ch) (lower_char c) else Ascii.eqb ch c.

Definition head_is_word (s : text) : bool :=
  match s with c :: _ => is_word c | [] => false end.

Definition at_boundary (st : mstate) : bool :=
  xorb (head_is_word (before st)) (head_is_word (rest st)).

Definition at_start (st : mstate) : bool :=
  match before st with [] => true | _ => false end.

(** [$] without MULTILINE: at the end, or before a final newline. *)
Definition at_end (st : mstate) : bool :=
  match rest st with
  | [] => true
  | [c] => is_newline c
  | _ => false
  end.

Definition orelse {A : Type} (a b : option A) : option A :=
  match a with Some _ => a | None => b end.

Fixpoint star_loop (p : ascii -> bool) (bef rst : text) (g : option text)
    (k : mstate -> option mstate) : option mstate :=
  match rst with
  | c :: rst' =>
      if p c
      then orelse (star_loop p (c :: bef) rst' g k) (k (MState bef rst g))
      else k (MState bef rst g)
  | [] => k (MState bef rst g)
  end.

(** The text between two positions, the second reached from the first. *)
Definition consumed (st st' : mstate) : text :=
  rev (firstn (length (before st') - length (before st)) (before st')).

Definition step_char (ok : ascii -> bool) (st : mstate)
    (k : mstate -> option mstate) : option mstate :=
  match rest st with
  | c :: rst' => if ok c then k (MState (c :: before st) rst' (grp1 st)) else None
  | [] => None
  end.

Fixpoint run (icase : bool) (r : regex) (st : mstate)
    (k : mstate -> option mstate) : option mstate :=
  match r with
  | Eps => k st
  | Lit c => step_char (lit_eq icase c) st k
  | Cls p => step_char p st k
  | Star p => star_loop p (before st) (rest st) (grp1 st) k
  | Seq r1 r2 => run icase r1 st (fun st' => run icase r2 st' k)
  | Alt r1 r2 => orelse (run icase r1 st k) (run icase r2 st k)
  | Opt r1 => orelse (run icase r1 st k) (k st)
  | Group r1 =>
      run icase r1 st
        (fun st' => k (MState (before st') (rest st') (Some (consumed st st'))))
  | Bol => if at_start st then k st else None
  | Eol => if at_end st then k st else None
  | WordB => if at_boundary st then k st else None
  end.

(** [re.match(r, s)]: the match, if any, that starts at position 0. *)
Definition re_match (icase : bool) (r : regex) (s : text) : option mstate :=
  run icase r (MState [] s None) Some.

(** [re.search(r, s)]: the match at the leftmost position that has one. *)
Fixpoint search_from (icase : bool) (r : regex) (bef rst : text)
    : option mstate :=
  orelse (run icase r (MState bef rst None) Some)
    (match rst with
     | c :: rst' => search_from icase r (c :: bef) rst'
     | [] => None
     end).

Definition re_search (icase : bool) (r : regex) (s : text) : option mstate :=
  search_from icase r [] s.

(** [bool(m)] for [m] a match or [None]. *)
Definition found (m : option mstate) : bool :=
  match m with Some _ => true | None => false end.

(** [m.group(1)]; on [None] the attribute access raises.  Group 1 of each
    pattern of the source lies on every path through the pattern, so a
    match has set it; for a group that took no part Python yields [None]
    and the next use of it fails with a [TypeError]. *)
Definition group1 (m : option mstate) : result text :=
  match m with
  | Some st =>
      match grp1 st with
      | Some g => Ok g
      | None => Raise (Exn OtherException (T "unexpected NoneType"))
      end
  | None =>
      Raise (Exn AttributeError
               (T "'NoneType' object has no attribute 'group'"))
  end.

Notation "r1 >> r2" := (Seq r1 r2) (at level 61, right associativity).

(** [r|r1|...|rn] *)
Fixpoint Alts (r : regex) (rs : list regex) : regex :=
  match rs with
  | [] => r
  | r' :: rs' => Alt r (Alts r' rs')
  end.

(* ================================================================== *)
(** ** Numbers from text *)

Definition digit_value (c : ascii) : Z := Z.of_nat (nat_of_ascii c - 48).

(** The number a run of decimal digits denotes. *)
Definition digits_value (s : text) : Z :=
  fold_left (fun acc c => (acc * 10 + digit_value c)%Z) s 0%Z.

Definition all_digits (s : text) : bool := forallb is_digit s.

Definition is_point (c : ascii) : bool := in_range 46 46 c.

(** The text up to the first point, and the text after it if there is one. *)
Fixpoint cut_at_point (s : text) : text * option text :=
  match s with
  | [] => ([], None)
  | c :: s' =>
      if is_point c then ([], Some s')
      else let (i, f) := cut_at_point s' in (c :: i, f)
  end.

Fixpoint pow10 (n : nat) : positive :=
  match n with
  | 0 => 1%positive
  | S n' => (10 * pow10 n')%positive
  end.

Definition invalid_literal (s : text) : exn :=
  Exn ValueError (T "invalid literal: " ++ s).

(** The most digits [int] converts: CPython's default
    [sys.get_int_max_str_digits()]. *)
Definition int_max_str_digits : nat := 4300.

Definition too_many_digits : exn :=
  Exn ValueError (T "Exceeds the limit (4300 digits) for integer string conversion").

(** [int(s)] for [s] a run of decimal digits, which is all the source
    passes to it (a captured run of digits); Python also reads blanks, a
    sign and underscores. *)
Definition py_int (s : text) : result Z :=
  if truthy s && all_digits s
  then if length s <=? int_max_str_digits
       then Ok (digits_value s)
       else Raise too_many_digits
  else Raise (invalid_literal s).

(** [float(s)] for [s] of the shape digits, or digits, a point and maybe
    more digits, which is all the source passes to it; Python also reads
    blanks, a sign, an exponent and the names of the special values. *)
Definition py_float (s : text) : result Q :=
  match cut_at_point s with
  | (i, None) =>
      if truthy i && all_digits i
      then Ok (inject_Z (digits_value i))
      else Raise (invalid_literal s)
  | (i, Some f) =>
      if truthy i && all_digits i && all_digits f
      then Ok (Qred (Qmake (digits_value (i ++ f)) (pow10 (length f))))
      else Raise (invalid_literal s)
  end.

(* ================================================================== *)
(** ** The data model *)

Record School : Type := mkSchool {
  name : text;
  distance : Q;
  rating : option Q;
  type : text
}.

Record PropertyDetails : Type := mkPropertyDetails {
  square_feet : option Q;
  bedrooms : option Z;
  bathrooms : option Q;
  estimated_value : option Q;
  year_built : option Z
}.

Record HomeInformation : Type := mkHomeInformation {
  address : text;
  overview : text;
  details : PropertyDetails;
  nearby_schools : list School
}.

(* ================================================================== *)
(** ** AddressValidator *)

(** The street types of the pattern, in its order. *)
Definition street_types : list text :=
  map T ["street"; "st"; "avenue"; "ave"; "road"; "rd"; "boulevard";
         "blvd"; "lane"; "ln"; "drive"; "dr"]%string.

(** The alternation "street|st|avenue|ave|road|rd|boulevard|blvd|lane|ln|drive|dr" *)
Definition street_type_re : regex :=
  Alts (Word (T "street")) (map Word (tl street_types)).

(** The pattern "\d+.*\b[A-Za-z]+\b.*(?:street|...|dr)\b.*" *)
Definition street_re : regex :=
  Plus is_digit >> Star is_dot >> WordB >> Plus is_ascii_letter >> WordB >>
  Star is_dot >> street_type_re >> WordB >> Star is_dot.

Definition validate_street (street : text) : bool :=
  if negb (truthy street) || (length (strip street) <? 5)
     || (100 <? length street)
  then false
  else found (re_match false street_re (lower street)).

(** The pattern "^\d{5}(?:-\d{4})?$" *)
Definition zipcode_re : regex :=
  Bol >> Rep 5 is_digit >> Opt (Lit "-" >> Rep 4 is_digit) >> Eol.

Definition validate_zipcode (zipcode : text) : bool :=
  found (re_match false zipcode_re zipcode).

(* ================================================================== *)
(** ** HomeInfoRetriever *)

(** [self.client.chat.completions.create(...)] followed by
    [.choices[0].message.content]: given the system and the user message,
    the service answers with a text or the call raises.  The content of an
    answer is a text, as the annotations of the source have it. *)
Definition client_t : Type := text -> text -> result text.

Definition overview_system : text :=
  T "You are a knowledgeable real estate expert.".

Definition details_system : text :=
  T "You are a real estate database. Respond with only the requested format.".

Definition schools_system : text :=
  T "You are a school information database. List exactly 3 schools in the exact format specified.".

Definition overview_prompt (address : text) : text :=
  T "Provide a brief overview of the property at " ++ address ++
  T ". Include notable features and characteristics.".

Definition details_prompt (address : text) : text :=
  (T "Provide detailed information about the property at " ++ address ++
   T " in the following format:" ++ [NL]) ++
  (T "Square Feet: [number]" ++ [NL] ++ T "Bedrooms: [number]" ++ [NL] ++
   T "Bathrooms: [number]" ++ [NL]) ++
  (T "Estimated Value: [number in USD]" ++ [NL] ++ T "Year Built: [year]").

Definition schools_prompt (address : text) : text :=
  (T "List 3 nearby schools for " ++ address ++
   T ". For each school, provide:" ++ [NL]) ++
  (T "Name: [school name]" ++ [NL] ++ T "Distance: [number] miles" ++ [NL] ++
   T "Rating: [number]/10" ++ [NL] ++
   T "Type: [elementary school/middle school/high school]").

Definition _get_property_overview (client : client_t) (address : text)
    : result text :=
  client overview_system (overview_prompt address).

(** The pattern "Square\s*Feet:?\s*(\d[\d,]* )" *)
Definition square_feet_re : regex :=
  Word (T "Square") >> Star is_space >> Word (T "Feet") >> Opt (Lit ":") >>
  Star is_space >> Group (Cls is_digit >> Star is_digit_or_comma).

(** The pattern "Bedrooms?:?\s*(\d+)" *)
Definition bedrooms_re : regex :=
  Word (T "Bedroom") >> Opt (Lit "s") >> Opt (Lit ":") >> Star is_space >>
  Group (Plus is_digit).

(** The pattern "Bathrooms?:?\s*(\d+\.?\d* )" *)
Definition bathrooms_re : regex :=
  Word (T "Bathroom") >> Opt (Lit "s") >> Opt (Lit ":") >> Star is_space >>
  Group (Plus is_digit >> Opt (Lit ".") >> Star is_digit).

(** The pattern "Estimated\s*Value:?\s*\$?\s*(\d[\d,]* )" *)
Definition estimated_value_re : regex :=
  Word (T "Estimated") >> Star is_space >> Word (T "Value") >>
  Opt (Lit ":") >> Star is_space >> Opt (Lit "$") >> Star is_space >>
  Group (Cls is_digit >> Star is_digit_or_comma).

(** The pattern "Year\s*Built:?\s*(\d{4})" *)
Definition year_built_re : regex :=
  Word (T "Year") >> Star is_space >> Word (T "Built") >> Opt (Lit ":") >>
  Star is_space >> Group (Rep 4 is_digit).

Definition no_details : PropertyDetails :=
  mkPropertyDetails None None None None None.

(** The five extractions of [_get_property_details], in the order of the
    source; the first one that fails raises. *)
Definition parse_details (details_text : text) : result PropertyDetails :=
  g <- group1 (re_search true square_feet_re details_text) ;;
  square_feet <- py_float (remove_commas g) ;;
  g <- group1 (re_search true bedrooms_re details_text) ;;
  bedrooms <- py_int g ;;
  g <- group1 (re_search true bathrooms_re details_text) ;;
  bathrooms <- py_float g ;;
  g <- group1 (re_search true estimated_value_re details_text) ;;
  estimated_value <- py_float (remove_commas g) ;;
  g <- group1 (re_search true year_built_re details_text) ;;
  year_built <- py_int g ;;
  Ok (mkPropertyDetails (Some square_feet) (Some bedrooms) (Some bathrooms)
        (Some estimated_value) (Some year_built)).

(** [except (AttributeError, ValueError)] *)
Definition parse_failure (e : exn) : bool :=
  match exn_cls e with
  | AttributeError | ValueError => true
  | OtherException => false
  end.

Definition _get_property_details (client : client_t) (address : text)
    : result PropertyDetails :=
  match (details_text <- client details_system (details_prompt address) ;;
         parse_details details_text) with
  | Ok d => Ok d
  | Raise e => if parse_failure e then Ok no_details else Raise e
  end.

(** The pattern "Name:\s*([^\n]+)" *)
Definition name_re : regex :=
  Word (T "Name:") >> Star is_space >> Group (Plus is_dot).

(** The pattern "Distance:\s*(\d+\.?\d* )" *)
Definition distance_re : regex :=
  Word (T "Distance:") >> Star is_space >>
  Group (Plus is_digit >> Opt (Lit ".") >> Star is_digit).

(** The pattern "Rating:\s*(\d+\.?\d* )" *)
Definition rating_re : regex :=
  Word (T "Rating:") >> Star is_space >>
  Group (Plus is_digit >> Opt (Lit ".") >> Star is_digit).

Definition school_types : list text :=
  map T ["elementary school"; "middle school"; "high school"]%string.

(** The pattern "Type:\s*(elementary school|middle school|high school)" *)
Definition type_re : regex :=
  Word (T "Type:") >> Star is_space >>
  Group (Alts (Word (T "elementary school")) (map Word (tl school_types))).

(** [[entry.strip() for entry in school_text.split('\n\n') if entry.strip()]] *)
Definition school_entries (school_text : text) : list text :=
  map strip (filter (fun entry => truthy (strip entry)) (split_blank school_text)).

(** The body of the loop over the entries: the school to append, if the
    four searches all matched. *)
Definition school_of_entry (entry : text) : result (option School) :=
  let name_match := re_search true name_re entry in
  let distance_match := re_search true distance_re entry in
  let rating_match := re_search true rating_re entry in
  let type_match := re_search true type_re entry in
  if found name_match && found distance_match && found rating_match
     && found type_match
  then
    n <- group1 name_match ;;
    d <- group1 distance_match ;;
    d <- py_float d ;;
    r <- group1 rating_match ;;
    r <- py_float r ;;
    t <- group1 type_match ;;
    Ok (Some (mkSchool (strip n) d (Some r) (lower t)))
  else Ok None.

(** [for entry in school_entries: try: ... except (AttributeError,
    ValueError): continue] *)
Fixpoint schools_loop (entries : list text) (schools : list School)
    : result (list School) :=
  match entries with
  | [] => Ok schools
  | entry :: more =>
      match school_of_entry entry with
      | Ok (Some s) => schools_loop more (schools ++ [s])
      | Ok None => schools_loop more schools
      | Raise e =>
          if parse_failure e then schools_loop more schools else Raise e
      end
  end.

(** The part of [_get_nearby_schools] after the request. *)
Definition parse_schools (school_text : text) : result (list School) :=
  schools_loop (school_entries school_text) [].

(** The outer handler is [except Exception: return []]. *)
Definition _get_nearby_schools (client : client_t) (address : text)
    : list School :=
  match (school_text <- client schools_system (schools_prompt address) ;;
         parse_schools school_text) with
  | Ok schools => schools
  | Raise _ => []
  end.

Definition retrieval_error (e : exn) : exn :=
  Exn OtherException (T "Error retrieving home information: " ++ exn_str e).

Definition get_home_information (client : client_t) (address : text)
    : result HomeInformation :=
  match (overview <- _get_property_overview client address ;;
         details <- _get_property_details client address ;;
         let schools := _get_nearby_schools client address in
         Ok (mkHomeInformation address overview details schools)) with
  | Ok info => Ok info
  | Raise e => Raise (retrieval_error e)
  end.

(* ================================================================== *)
(** ** What a pattern matches

    [Sem icase r st st'] says that [r] can take the matcher from position
    [st] to position [st'], whatever the order in which the matcher tries
    the alternatives. *)

(** [st'] is [st] moved over the text [u]; group 1 is untouched. *)
Definition span (st : mstate) (u : text) (st' : mstate) : Prop :=
  rest st = u ++ rest st' /\ before st' = rev u ++ before st
  /\ grp1 st' = grp1 st.

Fixpoint Sem (icase : bool) (r : regex) (st st' : mstate) : Prop :=
  match r with
  | Eps => st' = st
  | Lit c => exists ch, lit_eq icase c ch = true /\ span st [ch] st'
  | Cls p => exists ch, p ch = true /\ span st [ch] st'
  | Star p => exists u, forallb p u = true /\ span st u st'
  | Seq r1 r2 => exists st1, Sem icase r1 st st1 /\ Sem icase r2 st1 st'
  | Alt r1 r2 => Sem icase r1 st st' \/ Sem icase r2 st st'
  | Opt r1 => Sem icase r1 st st' \/ st' = st
  | Group r1 =>
      exists st1, Sem icase r1 st st1 /\
        st' = MState (before st1) (rest st1) (Some (consumed st st1))
  | Bol => at_start st = true /\ st' = st
  | Eol => at_end st = true /\ st' = st
  | WordB => at_boundary st = true /\ st' = st
  end.

(** [\b] and [$] between the texts before and after a position. *)
Definition boundary (pre post : text) : bool :=
  xorb (head_is_word (rev pre)) (head_is_word post).

Definition end_of_text (post : text) : bool :=
  match post with
  | [] => true
  | [c] => is_newline c
  | _ => false
  end.

(** The same, on texts: [Lang icase r pre u post g g'] says that [r] matches
    the text [u] when [pre] stands before it and [post] after it, and that
    group 1, holding [g] before, holds [g'] after. *)
Fixpoint Lang (icase : bool) (r : regex) (pre u post : text)
    (g g' : option text) : Prop :=
  match r with
  | Eps => u = [] /\ g' = g
  | Lit c => (exists ch, lit_eq icase c ch = true /\ u = [ch]) /\ g' = g
  | Cls p => (exists ch, p ch = true /\ u = [ch]) /\ g' = g
  | Star p => forallb p u = true /\ g' = g
  | Seq r1 r2 =>
      exists u1 u2 g1, u = u1 ++ u2 /\
        Lang icase r1 pre u1 (u2 ++ post) g g1 /\
        Lang icase r2 (pre ++ u1) u2 post g1 g'
  | Alt r1 r2 => Lang icase r1 pre u post g g' \/ Lang icase r2 pre u post g g'
  | Opt r1 => Lang icase r1 pre u post g g' \/ (u = [] /\ g' = g)
  | Group r1 => (exists g0, Lang icase r1 pre u post g g0) /\ g' = Some u
  | Bol => (u = [] /\ pre = []) /\ g' = g
  | Eol => (u = [] /\ end_of_text post = true) /\ g' = g
  | WordB => (u = [] /\ boundary pre post = true) /\ g' = g
  end.

(** [st'] is reached from [st] by reading [u]. *)
Definition moves (st : mstate) (u : text) (st' : mstate) : Prop :=
  rest st = u ++ rest st' /\ before st' = rev u ++ before st.

(** Two words that a literal pattern takes for the same. *)
Definition same_word (icase : bool) (w u : text) : Prop :=
  if icase then lower u = lower w else u = w.

(* ================================================================== *)
(** ** Shapes of texts, for the statements *)

(** Five digits, or five digits, a hyphen and four digits. *)
Definition zip_shape (z : text) : Prop :=
  exists a, length a = 5 /\ forallb is_digit a = true /\
    (z = a \/
     exists b, length b = 4 /\ forallb is_digit b = true /\
       z = a ++ T "-" ++ b).

(** What [validate_street] asks of the lower-cased street:
    digits [d]; then [x], free of newlines and ending in a non-word
    character; then a word [w] of ASCII letters; then [y], free of
    newlines and starting with a non-word character; then a street type
    [t]; then [z], which does not start with a word character. *)
Definition street_shape (l : text) : Prop :=
  exists d x w y t z,
    l = d ++ x ++ w ++ y ++ t ++ z /\
    d <> [] /\ forallb is_digit d = true /\
    x <> [] /\ forallb is_dot x = true /\ head_is_word (rev x) = false /\
    w <> [] /\ forallb is_ascii_letter w = true /\
    y <> [] /\ forallb is_dot y = true /\ head_is_word y = false /\
    In t street_types /\
    head_is_word z = false.


(** Digits, maybe a point, maybe more digits: what distance, rating and
    bathrooms capture. *)
Definition decimal_shape (v : text) : Prop :=
  exists i o f, v = i ++ o ++ f /\
    i <> [] /\ all_digits i = true /\ (o = [] \/ o = T ".") /\
    all_digits f = true.

(** A digit, then digits and commas: what square feet and estimated value
    capture. *)
Definition grouped_digits_shape (v : text) : Prop :=
  exists c u, v = c :: u /\ is_digit c = true /\
    forallb is_digit_or_comma u = true.

(** The text [s] holds the word [w], in any case. *)
Definition mentions (w s : text) : Prop :=
  exists pre u post, s = pre ++ u ++ post /\ lower u = lower w.

(* ================================================================== *)
(** ** Vocabulary of the statements about the retriever *)

(** The five searches of [_get_property_details] all find their field. *)
Definition details_fields_found (details_text : text) : bool :=
  found (re_search true square_feet_re details_text)
  && found (re_search true bedrooms_re details_text)
  && found (re_search true bathrooms_re details_text)
  && found (re_search true estimated_value_re details_text)
  && found (re_search true year_built_re details_text).

(** The words of the five labels. *)
Definition label_words : list text :=
  map T ["Square"; "Feet"; "Bedroom"; "Bathroom"; "Estimated"; "Value";
         "Year"; "Built"]%string.

Definition all_present (d : PropertyDetails) : Prop :=
  square_feet d <> None /\ bedrooms d <> None /\ bathrooms d <> None /\
  estimated_value d <> None /\ year_built d <> None.

(** The four searches of the loop over the school entries all match. *)
Definition has_all_fields (entry : text) : bool :=
  found (re_search true name_re entry)
  && found (re_search true distance_re entry)
  && found (re_search true rating_re entry)
  && found (re_search true type_re entry).

(** What one entry adds to the list of schools. *)
Definition school_in (entry : text) : list School :=
  match school_of_entry entry with
  | Ok (Some s) => [s]
  | _ => []
  end.

(** A service with a fixed outcome for each of the three requests, told
    apart by their system message. *)
Definition canned (overview_out details_out schools_out : result text)
    : client_t :=
  fun system _ =>
    if text_eqb system overview_system then overview_out
    else if text_eqb system details_system then details_out
    else schools_out.

(** Lines joined by newlines. *)
Fixpoint lines (ls : list string) : text :=
  match ls with
  | [] => []
  | [l] => T l
  | l :: ls' => T l ++ NL :: lines ls'
  end.

Definition connection_error : exn :=
  Exn OtherException (T "Connection error.").

Definition sample_address : text := T "123 Main St, Springfield, IL 62701".

Definition sample_overview : text := T "A two-storey house.".

(** The details text of the scenario in the specification. *)
Definition sample_details : text :=
  lines ["Square Feet: 1,200"; "Bedrooms: 3"; "Bathrooms: 2";
         "Estimated Value: $450,000"; "Year Built: 1995"]%string.

(** The same without the line for the bedrooms. *)
Definition sample_details_no_bedrooms : text :=
  lines ["Square Feet: 1,200"; "Bathrooms: 2";
         "Estimated Value: $450,000"; "Year Built: 1995"]%string.

(** Four well-formed school entries. *)
Definition sample_four_schools : text :=
  lines ["Name: Lincoln Elementary"; "Distance: 0.5 miles"; "Rating: 8/10";
         "Type: Elementary School"; "";
         "Name: Grant Middle"; "Distance: 1.2 miles"; "Rating: 7/10";
         "Type: Middle School"; "";
         "Name: Central High"; "Distance: 2 miles"; "Rating: 9/10";
         "Type: High School"; "";
         "Name: Adams Elementary"; "Distance: 2.5 miles"; "Rating: 6.5/10";
         "Type: elementary school"]%string.

(** Three school entries, the second without a rating. *)
Definition sample_three_schools : text :=
  lines ["Name: Lincoln Elementary"; "Distance: 0.5 miles"; "Rating: 8/10";
         "Type: Elementary School"; "";
         "Name: Grant Middle"; "Distance: 1.2 miles";
         "Type: Middle School"; "";
         "Name: Central High"; "Distance: 2 miles"; "Rating: 9/10";
         "Type: High School"]%string.

(** An entry with a name, a distance and a type, and no rating. *)
Definition sample_entry_no_rating : text :=
  lines ["Name: Grant Middle"; "Distance: 1.2 miles";
         "Type: Middle School"]%string.

(** ['\n\n'.join(pieces)] *)
Fixpoint join_blank (pieces : list text) : text :=
  match pieces with
  | [] => []
  | piece :: more =>
      match more with
      | [] => piece
      | _ => piece ++ NL :: NL :: join_blank more
      end
  end.

(* ================================================================== *)
(** ** The other validators *)

(** The code points of [c.upper()].  The upper case of the sharp s is two
    letters, and that of the micro sign and of y with diaeresis lies beyond
    code point 255, so the upper case of a text is a list of code points. *)
Definition upper_char (c : ascii) : list nat :=
  let n := nat_of_ascii c in
  if in_range 97 122 c || in_range 224 246 c || in_range 248 254 c
  then [n - 32]
  else if in_range 223 223 c then [83; 83]
  else if in_range 181 181 c then [924]
  else if in_range 255 255 c then [376]
  else [n].

(** [s.upper()] *)
Definition upper (s : text) : list nat := flat_map upper_char s.

(** The code points of a text. *)
Definition points (s : text) : list nat := map nat_of_ascii s.

Definition points_eqb (a b : list nat) : bool :=
  if list_eq_dec Nat.eq_dec a b then true else false.

(** The text with the given code points, when they are all below 256. *)
Definition as_text (ps : list nat) : option text :=
  if forallb (fun n => n <? 256) ps then Some (map ascii_of_nat ps) else None.

(** [s.isalpha()]: at least one character, and letters only. *)
Definition isalpha (s : text) : bool := truthy s && forallb is_alpha s.

Definition validate_city (city : text) : bool :=
  truthy city && (length city <=? 50)
  && forallb (fun c => is_alpha c || is_space c) city.

Definition valid_states : list text :=
  map T ["AL"; "AK"; "AZ"; "AR"; "CA"; "CO"; "CT"; "DE"; "FL"; "GA";
         "HI"; "ID"; "IL"; "IN"; "IA"; "KS"; "KY"; "LA"; "ME"; "MD";
         "MA"; "MI"; "MN"; "MS"; "MO"; "MT"; "NE"; "NV"; "NH"; "NJ";
         "NM"; "NY"; "NC"; "ND"; "OH"; "OK"; "OR"; "PA"; "RI"; "SC";
         "SD"; "TN"; "TX"; "UT"; "VT"; "VA"; "WA"; "WV"; "WI"; "WY"]%string.

Definition validate_state (state : text) : bool :=
  truthy state && (length state =? 2) && isalpha state
  && existsb (fun code => points_eqb (upper state) (points code)) valid_states.

(* ================================================================== *)
(** ** The constructor of HomeInfoRetriever *)

Definition missing_key : exn :=
  Exn ValueError (T "OPENAI_API_KEY not found in .env file").

(** [HomeInfoRetriever()]: [api_key] is what [os.getenv] finds once the
    .env file is loaded, and [connect] stands for [OpenAI(api_key=...)],
    which makes the service of that key. *)
Definition new_retriever (api_key : option text) (connect : text -> client_t)
    : result client_t :=
  match api_key with
  | Some key => if truthy key then Ok (connect key) else Raise missing_key
  | None => Raise missing_key
  end.

(* ================================================================== *)
(** ** main

    The standard input is the list of the lines still to be read, each
    without its newline; [input()] at the end of the list raises EOFError.
    The standard output is the list of the texts written, in order. *)

Definition eof_error : exn :=
  Exn OtherException (T "EOF when reading a line").

(** A step of [main]: from the lines to be read to the texts written and
    either a value with the lines left, or the exception raised. *)
Definition io (A : Type) : Type :=
  list text -> list text * result (A * list text).

Definition io_bind {A B : Type} (m : io A) (f : A -> io B) : io B :=
  fun stdin =>
    match m stdin with
    | (out, Ok (a, stdin')) =>
        let (out', r) := f a stdin' in (out ++ out', r)
    | (out, Raise e) => (out, Raise e)
    end.

Notation "x <~ m ;; k" := (io_bind m (fun x => k))
  (at level 61, m at next level, right associativity).

(** A step that reads and writes nothing. *)
Definition lift {A : Type} (r : result A) : io A :=
  fun stdin =>
    ([], match r with Ok a => Ok (a, stdin) | Raise e => Raise e end).

(** [print(line)] *)
Definition print (line : text) : io unit :=
  fun stdin => ([line ++ [NL]], Ok (tt, stdin)).

(** One [while True] loop of [main]: write the prompt and read a line;
    [accept] gives the value to keep when the line is valid; otherwise
    print the complaint and go round again. *)
Fixpoint ask (prompt complaint : text) (accept : text -> option text)
    (stdin : list text) : list text * result (text * list text) :=
  match stdin with
  | [] => ([prompt], Raise eof_error)
  | line :: more =>
      match accept line with
      | Some value => ([prompt], Ok (value, more))
      | None =>
          let (out, r) := ask prompt complaint accept more in
          (prompt :: (complaint ++ [NL]) :: out, r)
      end
  end.

(** [street = input(...).strip()], kept if [validate_street(street)];
    the same for the city and the ZIP code. *)
Definition accept_street (line : text) : option text :=
  let street := strip line in
  if validate_street street then Some street else None.

Definition accept_city (line : text) : option text :=
  let city := strip line in
  if validate_city city then Some city else None.

Definition accept_zipcode (line : text) : option text :=
  let zipcode := strip line in
  if validate_zipcode zipcode then Some zipcode else None.

(** [state = input(...).strip().upper()], kept if [validate_state(state)].
    When the upper case has a code point beyond 255, which is U+039C or
    U+0178 and its own upper case, it is no state code and the line is
    not valid. *)
Definition accept_state (line : text) : option text :=
  match as_text (upper (strip line)) with
  | Some state => if validate_state state then Some state else None
  | None => None
  end.

Definition ask_street : io text :=
  ask (T "Enter street address (e.g., 123 Main Street): ")
      (T "Invalid street address format. Please try again.") accept_street.

Definition ask_city : io text :=
  ask (T "Enter city: ") (T "Invalid city name. Please try again.")
      accept_city.

Definition ask_state : io text :=
  ask (T "Enter state (2-letter code): ")
      (T "Invalid state code. Please enter a valid US state code (e.g., CA).")
      accept_state.

Definition ask_zipcode : io text :=
  ask (T "Enter ZIP code: ")
      (T "Invalid ZIP code. Please enter a 5-digit ZIP code.") accept_zipcode.

(** The four loops and the address they make. *)
Definition read_address : io text :=
  street <~ ask_street ;;
  city <~ ask_city ;;
  state <~ ask_state ;;
  zipcode <~ ask_zipcode ;;
  lift (Ok (street ++ T ", " ++ city ++ T ", " ++ state ++ T " " ++ zipcode)).

Definition format_error : exn :=
  Exn OtherException
    (T "unsupported format string passed to NoneType.__format__").

Section Main.

(** [str(x)] and [format(x, ',.2f')] for a float, [str(n)] for an int. *)
Variable float_str : Q -> text.
Variable money_str : Q -> text.
Variable int_str : Z -> text.

(** A field that may be [None], inside an f-string. *)
Definition opt_str {A : Type} (str : A -> text) (x : option A) : text :=
  match x with
  | Some a => str a
  | None => T "None"
  end.

(** A field that may be [None], under the format [,.2f]. *)
Definition opt_money (x : option Q) : result text :=
  match x with
  | Some a => Ok (money_str a)
  | None => Raise format_error
  end.

Fixpoint print_schools (schools : list School) : io unit :=
  match schools with
  | [] => lift (Ok tt)
  | school :: more =>
      _ <~ print (name school ++ T " (" ++ type school ++ T ")") ;;
      _ <~ print (T "  Distance: " ++ float_str (distance school)
                  ++ T " miles") ;;
      _ <~ print (T "  Rating: " ++ opt_str float_str (rating school)
                  ++ T "/10") ;;
      _ <~ print [] ;;
      print_schools more
  end.

Definition print_home (home_info : HomeInformation) : io unit :=
  _ <~ print (NL :: T "Property Overview:") ;;
  _ <~ print (overview home_info) ;;
  _ <~ print (NL :: T "Property Details:") ;;
  _ <~ print (T "Square Feet: "
              ++ opt_str float_str (square_feet (details home_info))) ;;
  _ <~ print (T "Bedrooms: "
              ++ opt_str int_str (bedrooms (details home_info))) ;;
  _ <~ print (T "Bathrooms: "
              ++ opt_str float_str (bathrooms (details home_info))) ;;
  value <~ lift (opt_money (estimated_value (details home_info))) ;;
  _ <~ print (T "Estimated Value: $" ++ value) ;;
  _ <~ print (T "Year Built: "
              ++ opt_str int_str (year_built (details home_info))) ;;
  _ <~ print (NL :: T "Nearby Schools:") ;;
  print_schools (nearby_schools home_info).

(** The body of the [try] of [main]. *)
Definition main_body (api_key : option text) (connect : text -> client_t)
    : io unit :=
  retriever <~ lift (new_retriever api_key connect) ;;
  full_address <~ read_address ;;
  home_info <~ lift (get_home_information retriever full_address) ;;
  print_home home_info.

(** [except ValueError as e] and [except Exception as e] *)
Definition report (e : exn) : text :=
  match exn_cls e with
  | ValueError => T "Error: " ++ exn_str e ++ [NL]
  | _ => T "An unexpected error occurred: " ++ exn_str e ++ [NL]
  end.

(** What [main] writes, given the key of the environment, the service
    of each key and the lines of the standard input. *)
Definition main (api_key : option text) (connect : text -> client_t)
    (stdin : list text) : list text :=
  match main_body api_key connect stdin with
  | (out, Ok _) => out
  | (out, Raise e) => out ++ [report e]
  end.

End Main.

(** A property of a field that may be absent: it holds of the value, if
    there is one. *)
Definition opt_holds {A : Type} (P : A -> Prop) (x : option A) : Prop :=
  match x with
  | Some a => P a
  | None => True
  end.

(** The first and the last character of a text are letters. *)
Definition letter_at_ends (s : text) : Prop :=
  match s with c :: _ => is_alpha c = true | [] => False end /\
  match rev s with c :: _ => is_alpha c = true | [] => False end.

(** Sample runs of [main]: four valid lines, the prompts they are asked
    with, the address they make, and stand-ins for the formats of numbers. *)
Definition sample_stdin : list text :=
  map T ["123 Main St"; "Springfield"; "il"; "62701"]%string.

Definition sample_prompts : list text :=
  map T ["Enter street address (e.g., 123 Main Street): "; "Enter city: ";
         "Enter state (2-letter code): "; "Enter ZIP code: "]%string.

Definition sample_full_address : text :=
  T "123 Main St, Springfield, IL 62701".

Definition sample_float_str (q : Q) : text := T "1.0".

Definition sample_int_str (n : Z) : text := T "1".




(** The four texts that [main] writes for a school. *)
Definition school_lines (float_str : Q -> text) (school : School)
    : list text :=
  [(name school ++ T " (" ++ type school ++ T ")") ++ [NL];
   (T "  Distance: " ++ float_str (distance school) ++ T " miles") ++ [NL];
   (T "  Rating: " ++ opt_str float_str (rating school) ++ T "/10") ++ [NL];
   [NL]].

(* ================================================================== *)
(** ** Proof automation *)

(** Walk down a sequence of patterns to its last component. *)
Ltac last_component L :=
  cbn [Lang] in L;
  repeat (let u1 := fresh "u" in let u2 := fresh "u" in
          let g1 := fresh "g" in
          destruct L as (u1 & u2 & g1 & _ & _ & L)).

(** Settle a fact about a character by trying the 256 of them. *)
Ltac each_char c :=
  destruct c as [[] [] [] [] [] [] [] []]; vm_compute; reflexivity.

(* ================================================================== *)
(** * Properties *)

(** ** The matcher finds a match exactly when the pattern has one *)

Lemma span_nil (st : mstate) : span st [] st.
Proof. unfold span; simpl; auto. Qed.

Lemma span_state (st st' : mstate) (u : text) :
  span st u st' -> st' = MState (rev u ++ before st) (rest st') (grp1 st).
Proof.
  destruct st'; unfold span; simpl; intros (_ & -> & ->); reflexivity.
Qed.

Lemma span_cons (c : ascii) (bef rst : text) (g : option text) (u : text)
    (st' : mstate) :
  span (MState (c :: bef) rst g) u st' ->
  span (MState bef (c :: rst) g) (c :: u) st'.
Proof.
  unfold span; simpl; intros (-> & -> & ->); repeat split.
  rewrite <- app_assoc; reflexivity.
Qed.

Lemma orelse_some {A : Type} (a b : option A) (x : A) :
  orelse a b = Some x -> a = Some x \/ (a = None /\ b = Some x).
Proof. destruct a; simpl; auto. Qed.

Lemma orelse_left {A : Type} (a b : option A) :
  a <> None -> orelse a b <> None.
Proof. destruct a; simpl; congruence. Qed.

Lemma orelse_right {A : Type} (a b : option A) :
  b <> None -> orelse a b <> None.
Proof. destruct a; simpl; congruence. Qed.

Lemma star_loop_sound (p : ascii -> bool) (k : mstate -> option mstate)
    (m : mstate) (rst bef : text) (g : option text) :
  star_loop p bef rst g k = Some m ->
  exists st', Sem false (Star p) (MState bef rst g) st' /\ k st' = Some m.
Proof.
  revert bef; induction rst as [|c rst IH]; intros bef H; simpl in H.
  - exists (MState bef [] g); split; [exists []; split; [reflexivity|apply span_nil]|exact H].
  - destruct (p c) eqn:Hc.
    + apply orelse_some in H as [H|[_ H]].
      * apply IH in H as (st' & (u & Hu & Hs) & Hk).
        exists st'; split; [|exact Hk].
        exists (c :: u); split; [simpl; rewrite Hc; exact Hu|].
        apply span_cons; exact Hs.
      * exists (MState bef (c :: rst) g); split; [|exact H].
        exists []; split; [reflexivity|apply span_nil].
    + exists (MState bef (c :: rst) g); split; [|exact H].
      exists []; split; [reflexivity|apply span_nil].
Qed.

Lemma star_loop_complete (p : ascii -> bool) (k : mstate -> option mstate)
    (u : text) :
  forall (bef rst : text) (g : option text) (st' : mstate),
    forallb p u = true -> span (MState bef rst g) u st' ->
    k st' <> None -> star_loop p bef rst g k <> None.
Proof.
  induction u as [|c u IH]; intros bef rst g st' Hp Hs Hk.
  - pose proof (span_state Hs) as E; destruct Hs as (Hr & _); simpl in *.
    assert (st' = MState bef rst g) by (rewrite E, Hr; reflexivity); subst st'.
    destruct rst as [|c rst]; simpl; [exact Hk|].
    destruct (p c); [apply orelse_right|]; exact Hk.
  - simpl in Hp; apply andb_prop in Hp as [Hc Hp].
    destruct Hs as (Hr & Hb & Hg); simpl in *.
    subst rst; simpl; rewrite Hc. apply orelse_left.
    apply (IH (c :: bef) (u ++ rest st') g st' Hp); [|exact Hk].
    repeat split; simpl; auto. rewrite Hb, <- app_assoc; reflexivity.
Qed.

Lemma step_char_sound (ok : ascii -> bool) (st m : mstate)
    (k : mstate -> option mstate) :
  step_char ok st k = Some m ->
  exists st', (exists ch, ok ch = true /\ span st [ch] st') /\ k st' = Some m.
Proof.
  unfold step_char; destruct st as [bef [|c rst] g]; simpl; [discriminate|].
  destruct (ok c) eqn:E; [|discriminate]; intros H.
  eexists; split; [|exact H]. exists c; split; [exact E|].
  repeat split.
Qed.

Lemma step_char_complete (ok : ascii -> bool) (st st' : mstate)
    (k : mstate -> option mstate) (ch : ascii) :
  ok ch = true -> span st [ch] st' -> k st' <> None ->
  step_char ok st k <> None.
Proof.
  intros Hc Hs Hk. pose proof (span_state Hs) as E.
  destruct Hs as (Hr & _). unfold step_char; rewrite Hr; simpl.
  rewrite Hc. rewrite E in Hk; exact Hk.
Qed.

Theorem run_sound (ic : bool) (r : regex) :
  forall (st : mstate) (k : mstate -> option mstate) (m : mstate),
    run ic r st k = Some m ->
    exists st', Sem ic r st st' /\ k st' = Some m.
Proof.
  induction r as [|c|p|p|r1 IH1 r2 IH2|r1 IH1 r2 IH2|r1 IH1|r1 IH1| | |];
    intros st k m H; simpl in H.
  - exists st; split; [reflexivity|exact H].
  - apply step_char_sound in H; exact H.
  - apply step_char_sound in H; exact H.
  - apply star_loop_sound in H. destruct st; exact H.
  - apply IH1 in H as (st1 & H1 & H). apply IH2 in H as (st2 & H2 & H).
    exists st2; split; [exists st1; split; assumption|exact H].
  - apply orelse_some in H as [H|[_ H]].
    + apply IH1 in H as (st' & H1 & H). exists st'; split; [left|]; assumption.
    + apply IH2 in H as (st' & H2 & H). exists st'; split; [right|]; assumption.
  - apply orelse_some in H as [H|[_ H]].
    + apply IH1 in H as (st' & H1 & H). exists st'; split; [left|]; assumption.
    + exists st; split; [right; reflexivity|exact H].
  - apply IH1 in H as (st1 & H1 & H).
    eexists; split; [exists st1; split; [exact H1|reflexivity]|exact H].
  - destruct (at_start st) eqn:E; [|discriminate]. exists st; simpl; auto.
  - destruct (at_end st) eqn:E; [|discriminate]. exists st; simpl; auto.
  - destruct (at_boundary st) eqn:E; [|discriminate]. exists st; simpl; auto.
Qed.

Theorem run_complete (ic : bool) (r : regex) :
  forall (st st' : mstate) (k : mstate -> option mstate),
    Sem ic r st st' -> k st' <> None -> run ic r st k <> None.
Proof.
  induction r as [|c|p|p|r1 IH1 r2 IH2|r1 IH1 r2 IH2|r1 IH1|r1 IH1| | |];
    intros st st' k H Hk; simpl in H |- *.
  - subst st'; exact Hk.
  - destruct H as (ch & Hc & Hs). eapply step_char_complete; eauto.
  - destruct H as (ch & Hc & Hs). eapply step_char_complete; eauto.
  - destruct H as (u & Hu & Hs). destruct st as [bef rst g].
    eapply star_loop_complete; eauto.
  - destruct H as (st1 & H1 & H2). eapply IH1; [exact H1|].
    eapply IH2; eauto.
  - destruct H as [H|H]; [apply orelse_left|apply orelse_right]; eauto.
  - destruct H as [H|H]; [apply orelse_left; eauto|apply orelse_right].
    subst st'; exact Hk.
  - destruct H as (st1 & H1 & ->). eapply IH1; [exact H1|exact Hk].
  - destruct H as (-> & ->); exact Hk.
  - destruct H as (-> & ->); exact Hk.
  - destruct H as (-> & ->); exact Hk.
Qed.

(** ** From positions to texts *)

Lemma span_moves (st st' : mstate) (u : text) :
  span st u st' -> moves st u st' /\ grp1 st' = grp1 st.
Proof. unfold span, moves; tauto. Qed.

Lemma moves_app (st st1 st' : mstate) (u v : text) :
  moves st u st1 -> moves st1 v st' -> moves st (u ++ v) st'.
Proof.
  unfold moves; intros [-> E1] [-> ->]; split.
  - rewrite app_assoc; reflexivity.
  - rewrite E1, rev_app_distr, app_assoc; reflexivity.
Qed.

Lemma consumed_moves (st st' : mstate) (u : text) :
  moves st u st' -> consumed st st' = u.
Proof.
  unfold moves, consumed; intros [_ ->].
  rewrite length_app, Nat.add_sub.
  rewrite firstn_app, Nat.sub_diag, firstn_all; simpl.
  rewrite app_nil_r; apply rev_involutive.
Qed.

Lemma at_boundary_moves (st : mstate) :
  at_boundary st = boundary (rev (before st)) (rest st).
Proof. unfold at_boundary, boundary; rewrite rev_involutive; reflexivity. Qed.

Lemma at_start_rev (st : mstate) :
  at_start st = true <-> rev (before st) = [].
Proof.
  unfold at_start; destruct (before st) as [|c b]; simpl; [tauto|].
  split; [discriminate|]. intros H; apply app_eq_nil in H as [_ H]; discriminate.
Qed.

Theorem Sem_Lang (ic : bool) (r : regex) :
  forall st st' : mstate,
    Sem ic r st st' ->
    exists u, moves st u st' /\
      Lang ic r (rev (before st)) u (rest st') (grp1 st) (grp1 st').
Proof.
  induction r as [|c|p|p|r1 IH1 r2 IH2|r1 IH1 r2 IH2|r1 IH1|r1 IH1| | |];
    intros st st' H; simpl in H.
  - subst st'; exists []; simpl; repeat split.
  - destruct H as (ch & Hc & Hs); apply span_moves in Hs as [Hm Hg].
    exists [ch]; simpl; repeat split; try apply Hm; eauto.
  - destruct H as (ch & Hc & Hs); apply span_moves in Hs as [Hm Hg].
    exists [ch]; simpl; repeat split; try apply Hm; eauto.
  - destruct H as (u & Hu & Hs); apply span_moves in Hs as [Hm Hg].
    exists u; simpl; repeat split; try apply Hm; auto.
  - destruct H as (st1 & H1 & H2).
    apply IH1 in H1 as (u1 & M1 & L1); apply IH2 in H2 as (u2 & M2 & L2).
    exists (u1 ++ u2); split; [eapply moves_app; eauto|].
    simpl; exists u1, u2, (grp1 st1); split; [reflexivity|].
    destruct M1 as [R1 B1], M2 as [R2 B2].
    rewrite <- R2; split; [exact L1|].
    rewrite B1, rev_app_distr, rev_involutive in L2; exact L2.
  - destruct H as [H|H]; [apply IH1 in H|apply IH2 in H];
      destruct H as (u & M & L); exists u; simpl; auto.
  - destruct H as [H| ->].
    + apply IH1 in H as (u & M & L); exists u; simpl; auto.
    + exists []; simpl; repeat split; auto.
  - destruct H as (st1 & H & ->); apply IH1 in H as (u & M & L).
    exists u; simpl; split; [exact M|]. split; [eauto|].
    rewrite (consumed_moves M); reflexivity.
  - destruct H as (E & ->); exists []; simpl; repeat split.
    apply at_start_rev; exact E.
  - destruct H as (E & ->); exists []; simpl; repeat split; exact E.
  - destruct H as (E & ->); exists []; simpl; repeat split.
    rewrite <- at_boundary_moves; exact E.
Qed.

Theorem Lang_Sem (ic : bool) (r : regex) :
  forall (pre u post : text) (g g' : option text),
    Lang ic r pre u post g g' ->
    Sem ic r (MState (rev pre) (u ++ post) g)
             (MState (rev (pre ++ u)) post g').
Proof.
  induction r as [|c|p|p|r1 IH1 r2 IH2|r1 IH1 r2 IH2|r1 IH1|r1 IH1| | |];
    intros pre u post g g' H; simpl in H.
  - destruct H as (-> & ->); simpl; rewrite app_nil_r; reflexivity.
  - destruct H as ((ch & Hc & ->) & ->); simpl; exists ch; split; [exact Hc|].
    unfold span; simpl; rewrite rev_app_distr; auto.
  - destruct H as ((ch & Hc & ->) & ->); simpl; exists ch; split; [exact Hc|].
    unfold span; simpl; rewrite rev_app_distr; auto.
  - destruct H as (Hu & ->); simpl; exists u; split; [exact Hu|].
    unfold span; simpl; rewrite rev_app_distr; auto.
  - destruct H as (u1 & u2 & g1 & -> & L1 & L2).
    apply IH1 in L1; apply IH2 in L2.
    simpl; exists (MState (rev (pre ++ u1)) (u2 ++ post) g1).
    rewrite <- app_assoc; split; [exact L1|].
    rewrite app_assoc; exact L2.
  - destruct H as [H|H]; [left; apply IH1|right; apply IH2]; exact H.
  - destruct H as [H|(-> & ->)]; [left; apply IH1; exact H|right].
    rewrite app_nil_r; reflexivity.
  - destruct H as ((g0 & H) & ->); apply IH1 in H.
    simpl; eexists; split; [exact H|]. simpl; f_equal; f_equal.
    symmetry; apply consumed_moves; unfold moves; simpl.
    rewrite rev_app_distr; auto.
  - destruct H as ((-> & ->) & ->); simpl; auto.
  - destruct H as ((-> & E) & ->); simpl. rewrite app_nil_r; auto.
  - destruct H as ((-> & E) & ->); simpl. rewrite app_nil_r; split; [|reflexivity].
    rewrite at_boundary_moves; simpl; rewrite rev_involutive; exact E.
Qed.

(** ** [re.match] and [re.search] *)

Lemma found_true {m : option mstate} : found m = true <-> m <> None.
Proof. destruct m; simpl; split; congruence. Qed.

Theorem re_match_some (ic : bool) (r : regex) (s : text) (m : mstate) :
  re_match ic r s = Some m ->
  exists u, s = u ++ rest m /\ Lang ic r [] u (rest m) None (grp1 m).
Proof.
  unfold re_match; intros H.
  apply run_sound in H as (st' & H & E); injection E as ->.
  apply Sem_Lang in H as (u & [Hr _] & L); simpl in *.
  exists u; auto.
Qed.

Theorem re_match_found (ic : bool) (r : regex) (s : text) :
  found (re_match ic r s) = true <->
  exists u post g', s = u ++ post /\ Lang ic r [] u post None g'.
Proof.
  split.
  - destruct (re_match ic r s) as [m|] eqn:E; [intros _|discriminate].
    apply re_match_some in E as (u & E & L); eauto.
  - intros (u & post & g' & -> & L). apply found_true.
    apply Lang_Sem in L. unfold re_match.
    eapply run_complete; [exact L|discriminate].
Qed.

Lemma search_from_some (ic : bool) (r : regex) (m : mstate) :
  forall rst bef : text,
    search_from ic r bef rst = Some m ->
    exists pre u, rst = pre ++ u ++ rest m /\
      Lang ic r (rev bef ++ pre) u (rest m) None (grp1 m).
Proof.
  induction rst as [|c rst IH]; intros bef H; simpl in H;
    apply orelse_some in H as [H|[_ H]]; try discriminate.
  - apply run_sound in H as (st' & H & E); injection E as ->.
    apply Sem_Lang in H as (u & [Hr _] & L); simpl in *.
    exists [], u; rewrite app_nil_r; auto.
  - apply run_sound in H as (st' & H & E); injection E as ->.
    apply Sem_Lang in H as (u & [Hr _] & L); simpl in *.
    exists [], u; rewrite app_nil_r; auto.
  - apply IH in H as (pre & u & -> & L).
    exists (c :: pre), u; split; [reflexivity|].
    simpl in L; rewrite <- app_assoc in L; exact L.
Qed.

Lemma search_from_complete (ic : bool) (r : regex) (u post : text)
    (g' : option text) :
  forall pre bef : text,
    Lang ic r (rev bef ++ pre) u post None g' ->
    search_from ic r bef (pre ++ u ++ post) <> None.
Proof.
  induction pre as [|c pre IH]; intros bef L.
  - rewrite app_nil_r in L; apply Lang_Sem in L.
    rewrite rev_involutive in L.
    assert (run ic r (MState bef (u ++ post) None) Some <> None) as H
      by (eapply run_complete; [exact L|discriminate]).
    simpl; destruct (u ++ post); simpl; apply orelse_left; exact H.
  - simpl; apply orelse_right, IH.
    simpl; rewrite <- app_assoc; exact L.
Qed.

Theorem re_search_some (ic : bool) (r : regex) (s : text) (m : mstate) :
  re_search ic r s = Some m ->
  exists pre u, s = pre ++ u ++ rest m /\
    Lang ic r pre u (rest m) None (grp1 m).
Proof. intros H; apply search_from_some in H; exact H. Qed.

Theorem re_search_found (ic : bool) (r : regex) (s : text) :
  found (re_search ic r s) = true <->
  exists pre u post g', s = pre ++ u ++ post /\ Lang ic r pre u post None g'.
Proof.
  split.
  - destruct (re_search ic r s) as [m|] eqn:E; [intros _|discriminate].
    apply re_search_some in E as (pre & u & E & L); eauto 6.
  - intros (pre & u & post & g' & -> & L). apply found_true.
    apply (@search_from_complete ic r u post g' pre []); exact L.
Qed.

(** ** Compound patterns *)

Lemma lit_eq_same (ic : bool) (c ch : ascii) :
  lit_eq ic c ch = true <-> same_word ic [c] [ch].
Proof.
  unfold lit_eq, same_word; destruct ic; simpl; rewrite Ascii.eqb_eq;
    split; congruence.
Qed.

Lemma same_word_cons (ic : bool) (c ch : ascii) (w u : text) :
  same_word ic (c :: w) (ch :: u) <->
  lit_eq ic c ch = true /\ same_word ic w u.
Proof.
  rewrite lit_eq_same; unfold same_word; destruct ic; simpl;
    split; try (intros [H1 H2]); try split; congruence.
Qed.

Lemma same_word_nil (ic : bool) (u : text) : same_word ic [] u <-> u = [].
Proof.
  unfold same_word, lower; destruct ic; simpl; [|tauto].
  destruct u; simpl; split; congruence.
Qed.

Lemma same_word_length (ic : bool) (w u : text) :
  same_word ic w u -> length u = length w.
Proof.
  unfold same_word, lower; destruct ic; intros H; [|congruence].
  apply (f_equal (@length ascii)) in H; rewrite !length_map in H; exact H.
Qed.

Lemma Lang_Word (ic : bool) (w : text) :
  forall (pre u post : text) (g g' : option text),
    Lang ic (Word w) pre u post g g' <-> same_word ic w u /\ g' = g.
Proof.
  induction w as [|c w IH]; intros pre u post g g'; simpl.
  - rewrite same_word_nil; tauto.
  - split.
    + intros (u1 & u2 & g1 & -> & ((ch & Hc & ->) & ->) & L).
      apply IH in L as [L ->]; simpl; rewrite same_word_cons; auto.
    + intros [H ->]. destruct u as [|ch u].
      * apply same_word_length in H; discriminate.
      * apply same_word_cons in H as [Hc H].
        exists [ch], u, g; repeat split; eauto. apply IH; auto.
Qed.

Lemma Lang_Rep (p : ascii -> bool) (ic : bool) (n : nat) :
  forall (pre u post : text) (g g' : option text),
    Lang ic (Rep n p) pre u post g g' <->
    length u = n /\ forallb p u = true /\ g' = g.
Proof.
  induction n as [|n IH]; intros pre u post g g'; simpl.
  - split; [intros [-> ->]; auto|].
    intros (H & _ & ->); apply length_zero_iff_nil in H; auto.
  - split.
    + intros (u1 & u2 & g1 & -> & ((ch & Hc & ->) & ->) & L).
      apply IH in L as (<- & L & ->); simpl; rewrite Hc; auto.
    + intros (Hn & Hp & ->). destruct u as [|ch u]; [discriminate|].
      simpl in Hp; apply andb_prop in Hp as [Hc Hp].
      exists [ch], u, g; repeat split; eauto. apply IH; auto.
Qed.

Lemma Lang_Plus (p : ascii -> bool) (ic : bool)
    (pre u post : text) (g g' : option text) :
  Lang ic (Plus p) pre u post g g' <->
  u <> [] /\ forallb p u = true /\ g' = g.
Proof.
  unfold Plus; simpl; split.
  - intros (u1 & u2 & g1 & -> & ((ch & Hc & ->) & ->) & Hp & ->).
    simpl; rewrite Hc; repeat split; auto; discriminate.
  - intros (Hn & Hp & ->). destruct u as [|ch u]; [congruence|].
    simpl in Hp; apply andb_prop in Hp as [Hc Hp].
    exists [ch], u, g; repeat split; eauto.
Qed.

Lemma Lang_Alts_Word (ic : bool) (ws : list text) :
  forall (w : text) (pre u post : text) (g g' : option text),
    Lang ic (Alts (Word w) (map Word ws)) pre u post g g' <->
    (exists t, In t (w :: ws) /\ same_word ic t u) /\ g' = g.
Proof.
  induction ws as [|w' ws IH]; intros w pre u post g g'.
  - cbn [map Alts]; rewrite Lang_Word; split.
    + intros [H ->]; split; [exists w; simpl; auto|reflexivity].
    + intros [(t & [<-|[]] & H) ->]; auto.
  - cbn [map Alts Lang]; rewrite Lang_Word, IH; split.
    + intros [[H ->]|[(t & Ht & H) ->]]; (split; [|reflexivity]).
      * exists w; simpl; auto.
      * exists t; split; [right; exact Ht|exact H].
    + intros [(t & [<-|Ht] & H) ->]; [left; auto|right; eauto].
Qed.

(** ** [validate_zipcode] *)

Lemma end_of_text_cases (post : text) :
  end_of_text post = true <-> post = [] \/ post = [NL].
Proof.
  destruct post as [|c [|c' post]]; simpl.
  - tauto.
  - unfold is_newline, in_range; split.
    + intros H; right; f_equal.
      apply andb_prop in H as [H1 H2].
      apply Nat.leb_le in H1, H2.
      rewrite <- (ascii_nat_embedding c).
      replace (nat_of_ascii c) with 10 by lia; reflexivity.
    + intros [H|H]; [discriminate|]. injection H as ->; reflexivity.
  - split; [discriminate|]. intros [H|H]; discriminate.
Qed.

Theorem validate_zipcode_spec (s : text) :
  validate_zipcode s = true <->
  exists z, zip_shape z /\ (s = z \/ s = z ++ [NL]).
Proof.
  unfold validate_zipcode; rewrite re_match_found; unfold zipcode_re; split.
  - intros (u & post & g' & -> & L); cbn [Lang] in L.
    destruct L as (u1 & u2 & g1 & -> & ((-> & _) & ->) & L).
    destruct L as (a & u3 & g2 & -> & La & L).
    apply Lang_Rep in La as (Ha & Da & ->).
    destruct L as (o & u4 & g3 & -> & Lo & ((-> & He) & ->)).
    apply end_of_text_cases in He.
    exists (a ++ o); split.
    + exists a; repeat split; auto.
      destruct Lo as [(h & b & g4 & -> & ((ch & Hc & ->) & ->) & Lb)|(-> & _)].
      * apply Lang_Rep in Lb as (Hb & Db & _).
        apply Ascii.eqb_eq in Hc; subst ch. right; exists b; auto.
      * left; rewrite app_nil_r; reflexivity.
    + simpl; rewrite !app_nil_r; destruct He as [-> | ->];
        [left; rewrite app_nil_r|right]; reflexivity.
  - intros (z & (a & Ha & Da & Hz) & Hs).
    assert (exists post, s = z ++ post /\ end_of_text post = true)
      as (post & -> & He)
      by (destruct Hs as [-> | ->];
          [exists []; rewrite app_nil_r|exists [NL]]; auto).
    exists z, post, None; split; [reflexivity|]; cbn [Lang].
    exists [], z, None; repeat split.
    destruct Hz as [-> |(b & Hb & Db & ->)].
    + exists a, [], None; rewrite app_nil_r; repeat split.
      * apply Lang_Rep; auto.
      * exists [], [], None; repeat split; auto.
    + exists a, (T "-" ++ b), None; repeat split.
      * apply Lang_Rep; auto.
      * exists (T "-" ++ b), [], None; rewrite app_nil_r; repeat split; auto.
        left. exists (T "-"), b, None; repeat split.
        -- exists "-"%char; auto.
        -- apply Lang_Rep; auto.
Qed.

(** ** [validate_street] *)

Lemma head_is_word_app (a b : text) :
  a <> [] -> head_is_word (a ++ b) = head_is_word a.
Proof. destruct a; [congruence|reflexivity]. Qed.

Lemma head_is_word_rev_app (a b : text) :
  b <> [] -> head_is_word (rev (a ++ b)) = head_is_word (rev b).
Proof.
  intros H; rewrite rev_app_distr; apply head_is_word_app.
  intros E; apply (f_equal (@rev ascii)) in E.
  rewrite rev_involutive in E; auto.
Qed.

Lemma in_range_spec (lo hi : nat) (c : ascii) :
  in_range lo hi c = true <-> lo <= nat_of_ascii c <= hi.
Proof.
  unfold in_range; rewrite andb_true_iff, !Nat.leb_le; tauto.
Qed.

Lemma letter_is_word (c : ascii) : is_ascii_letter c = true -> is_word c = true.
Proof.
  unfold is_ascii_letter, is_word, is_alpha; intros H.
  apply orb_prop in H as [H|H]; rewrite H; simpl;
    rewrite ?orb_true_r; reflexivity.
Qed.

Lemma digit_is_word (c : ascii) : is_digit c = true -> is_word c = true.
Proof.
  unfold is_word; intros ->; rewrite orb_true_r; reflexivity.
Qed.

Lemma forallb_rev (p : ascii -> bool) (u : text) :
  forallb p (rev u) = forallb p u.
Proof.
  induction u as [|c u IH]; simpl; [reflexivity|].
  rewrite forallb_app, IH; simpl; rewrite andb_true_r; apply andb_comm.
Qed.

Lemma rev_nonempty (u : text) : u <> [] -> rev u <> [].
Proof.
  intros H E; apply (f_equal (@rev ascii)) in E.
  rewrite rev_involutive in E; auto.
Qed.

(** A non-empty run of word characters starts and ends with one. *)
Lemma run_of_word_chars (p : ascii -> bool) (u : text) :
  (forall c, p c = true -> is_word c = true) ->
  u <> [] -> forallb p u = true ->
  head_is_word u = true /\ head_is_word (rev u) = true.
Proof.
  intros Hp Hn Hu.
  assert (forall v, v <> [] -> forallb p v = true -> head_is_word v = true) as K.
  { intros [|c v] Hv Hf; [congruence|].
    simpl in Hf; apply andb_prop in Hf as [Hc _]; simpl; auto. }
  split; [auto|]. apply K; [apply rev_nonempty; exact Hn|].
  rewrite forallb_rev; exact Hu.
Qed.

Lemma street_type_word (t : text) :
  In t street_types ->
  t <> [] /\ head_is_word t = true /\ head_is_word (rev t) = true.
Proof.
  unfold street_types; simpl.
  intros H; repeat (destruct H as [<-|H]; [repeat split; discriminate|]).
  destruct H.
Qed.

Lemma Lang_street_type (pre u post : text) (g g' : option text) :
  Lang false street_type_re pre u post g g' <->
  In u street_types /\ g' = g.
Proof.
  unfold street_type_re; rewrite Lang_Alts_Word.
  change (T "street" :: tl street_types) with street_types.
  unfold same_word; split.
  - intros [(t & Ht & ->) ->]; auto.
  - intros [Hu ->]; eauto.
Qed.

Lemma boundary_before_word (pre a post : text) :
  a <> [] -> head_is_word a = true ->
  boundary pre (a ++ post) = true <-> head_is_word (rev pre) = false.
Proof.
  intros Na Wa; unfold boundary; rewrite head_is_word_app, Wa by exact Na.
  destruct (head_is_word (rev pre)); simpl; split; congruence.
Qed.

Lemma boundary_after_word (pre a post : text) :
  a <> [] -> head_is_word (rev a) = true ->
  boundary (pre ++ a) post = true <-> head_is_word post = false.
Proof.
  intros Na Wa; unfold boundary; rewrite head_is_word_rev_app, Wa by exact Na.
  destruct (head_is_word post); simpl; split; congruence.
Qed.

Theorem street_re_spec (l : text) :
  found (re_match false street_re l) = true <-> street_shape l.
Proof.
  rewrite re_match_found; unfold street_re; split.
  - intros (u & post & g' & -> & L); cbn [Lang] in L.
    destruct L as (d & u1 & g1 & -> & Ld & L).
    apply Lang_Plus in Ld as (Nd & Dd & _).
    destruct L as (x & u2 & g2 & -> & (Dx & _) & L).
    destruct L as (b1 & u3 & g3 & -> & ((-> & B1) & _) & L).
    destruct L as (w & u4 & g4 & -> & Lw & L).
    apply Lang_Plus in Lw as (Nw & Dw & _).
    destruct L as (b2 & u5 & g5 & -> & ((-> & B2) & _) & L).
    destruct L as (y & u6 & g6 & -> & (Dy & _) & L).
    destruct L as (t & u7 & g7 & -> & Lt & L).
    apply Lang_street_type in Lt as (Ht & _).
    destruct L as (b3 & z1 & g8 & -> & ((-> & B3) & _) & (Dz & _)).
    rewrite <- ?app_assoc in B1, B2, B3.
    cbn [app] in B1, B2, B3 |- *.
    pose proof (run_of_word_chars _ digit_is_word Nd Dd) as [Wd1 Wd2].
    pose proof (run_of_word_chars _ letter_is_word Nw Dw) as [Ww1 Ww2].
    pose proof (street_type_word Ht) as (Nt & Wt1 & Wt2).
    apply boundary_before_word in B1; [|exact Nw|exact Ww1].
    replace (d ++ x ++ w) with ((d ++ x) ++ w) in B2
      by (rewrite <- app_assoc; reflexivity).
    apply boundary_after_word in B2; [|exact Nw|exact Ww2].
    replace (d ++ x ++ w ++ y ++ t) with ((d ++ x ++ w ++ y) ++ t) in B3
      by (rewrite <- !app_assoc; reflexivity).
    apply boundary_after_word in B3; [|exact Nt|exact Wt2].
    assert (x <> []) as Nx.
    { intros ->; rewrite app_nil_r, Wd2 in B1; discriminate. }
    rewrite head_is_word_rev_app in B1 by exact Nx.
    assert (y <> []) as Ny.
    { intros ->; simpl in B2; rewrite head_is_word_app, Wt1 in B2 by exact Nt.
      discriminate. }
    rewrite head_is_word_app in B2 by exact Ny.
    exists d, x, w, y, t, (z1 ++ post).
    repeat split; auto.
    rewrite <- !app_assoc; reflexivity.
  - intros (d & x & w & y & t & z & -> & Nd & Dd & Nx & Dx & Bx & Nw & Dw
            & Ny & Dy & By & Ht & Bz).
    pose proof (run_of_word_chars _ letter_is_word Nw Dw) as [Ww1 Ww2].
    pose proof (street_type_word Ht) as (Nt & Wt1 & Wt2).
    exists (d ++ x ++ w ++ y ++ t), z, None; split;
      [rewrite <- !app_assoc; reflexivity|]; cbn [Lang].
    exists d, (x ++ w ++ y ++ t), None; split; [reflexivity|].
    split; [apply Lang_Plus; auto|].
    exists x, (w ++ y ++ t), None; repeat split; auto.
    exists [], (w ++ y ++ t), None; repeat split.
    { cbn [app]; rewrite <- app_assoc.
      apply boundary_before_word; [exact Nw|exact Ww1|].
      rewrite head_is_word_rev_app by exact Nx; exact Bx. }
    exists w, (y ++ t), None; split; [reflexivity|].
    split; [apply Lang_Plus; auto|].
    exists [], (y ++ t), None; repeat split.
    { apply boundary_after_word; [exact Nw|exact Ww2|].
      rewrite <- app_assoc, head_is_word_app by exact Ny; exact By. }
    exists y, t, None; repeat split; auto.
    exists t, [], None; split; [rewrite app_nil_r; reflexivity|].
    split; [apply Lang_street_type; auto|].
    exists [], [], None; repeat split.
    apply boundary_after_word; [exact Nt|exact Wt2|exact Bz].
Qed.




(** More of the same: a street type that only ends a word is accepted, and
    so is a text that goes on after a newline; a newline before the street
    type is not. *)
Example validate_street_samples :
  validate_street (T "123 Main St") = true /\
  validate_street (T "123") = false /\
  validate_street (T "Avenue") = false /\
  validate_street (T "123 Main Forest") = true /\
  validate_street (T "12 Oak St" ++ [NL] ++ T "anything") = true /\
  validate_street (T "12 Oak" ++ [NL] ++ T "St") = false.
Proof. vm_compute; repeat split. Qed.

(** C8.  The text ["90210"] followed by a newline is accepted, though it is
    neither five digits nor five digits, a hyphen and four digits: [$]
    also matches before a final newline. *)
Theorem validate_zipcode_trailing_newline :
  validate_zipcode (T "90210" ++ [NL]) = true /\
  ~ zip_shape (T "90210" ++ [NL]).
Proof.
  split; [reflexivity|].
  intros (a & Ha & Da & [E|(b & Hb & Db & E)]).
  - rewrite <- E in Ha; discriminate.
  - do 6 (destruct a as [|? a]; try discriminate).
Qed.

Example validate_zipcode_samples :
  validate_zipcode (T "90210") = true /\
  validate_zipcode (T "90210-1234") = true /\
  validate_zipcode (T "1234") = false /\
  validate_zipcode (T "123456") = false /\
  validate_zipcode (T "ABCDE") = false.
Proof. vm_compute; repeat split. Qed.

(** ** What the searches capture *)

Lemma Lang_Word_seq (ic : bool) (w : text) (r : regex)
    (pre u post : text) (g g' : option text) :
  Lang ic (Word w >> r) pre u post g g' ->
  exists u1 u2, u = u1 ++ u2 /\ same_word ic w u1.
Proof.
  simpl; intros (u1 & u2 & g1 & -> & L & _).
  apply Lang_Word in L as [L _]; eauto.
Qed.

Lemma search_mentions (w : text) (r : regex) (s : text) :
  found (re_search true (Word w >> r) s) = true -> mentions w s.
Proof.
  rewrite re_search_found; intros (pre & u & post & g' & -> & L).
  apply Lang_Word_seq in L as (u1 & u2 & -> & L).
  exists pre, u1, (u2 ++ post); split; [|exact L].
  rewrite <- app_assoc; reflexivity.
Qed.

Lemma bedrooms_group (s : text) (m : mstate) :
  re_search true bedrooms_re s = Some m ->
  exists v, grp1 m = Some v /\ v <> [] /\ all_digits v = true.
Proof.
  intros H; apply re_search_some in H as (pre & u & _ & L).
  unfold bedrooms_re in L; last_component L.
  destruct L as [[? L] E]; apply Lang_Plus in L as (Hn & Hd & _); eauto.
Qed.

Lemma point_only (ch : ascii) : lit_eq true "." ch = true -> ch = "."%char.
Proof.
  destruct ch as [[] [] [] [] [] [] [] []]; vm_compute; intros H;
    solve [reflexivity | discriminate H].
Qed.

Lemma Lang_decimal (pre u post : text) (g g' : option text) :
  Lang true (Plus is_digit >> Opt (Lit ".") >> Star is_digit)
    pre u post g g' ->
  decimal_shape u.
Proof.
  cbn [Lang]; intros (i & u1 & g1 & -> & Li & o & f & g2 & -> & Lo & Lf & _).
  apply Lang_Plus in Li as (Ni & Di & _).
  exists i, o, f; repeat split; auto.
  destruct Lo as [((ch & Hc & ->) & _)|(-> & _)]; [right|left; reflexivity].
  apply point_only in Hc; subst ch; reflexivity.
Qed.

Lemma Lang_grouped_digits (pre u post : text) (g g' : option text) :
  Lang true (Cls is_digit >> Star is_digit_or_comma) pre u post g g' ->
  grouped_digits_shape u.
Proof.
  cbn [Lang]; intros (u1 & u2 & g1 & -> & ((c & Hc & ->) & _) & Hu & _).
  exists c, u2; auto.
Qed.

Lemma square_feet_group (s : text) (m : mstate) :
  re_search true square_feet_re s = Some m ->
  exists v, grp1 m = Some v /\ grouped_digits_shape v.
Proof.
  intros H; apply re_search_some in H as (pre & u & _ & L).
  unfold square_feet_re in L; last_component L.
  destruct L as [[? L] E]; apply Lang_grouped_digits in L; eauto.
Qed.

Lemma bathrooms_group (s : text) (m : mstate) :
  re_search true bathrooms_re s = Some m ->
  exists v, grp1 m = Some v /\ decimal_shape v.
Proof.
  intros H; apply re_search_some in H as (pre & u & _ & L).
  unfold bathrooms_re in L; last_component L.
  destruct L as [[? L] E]; apply Lang_decimal in L; eauto.
Qed.

Lemma estimated_value_group (s : text) (m : mstate) :
  re_search true estimated_value_re s = Some m ->
  exists v, grp1 m = Some v /\ grouped_digits_shape v.
Proof.
  intros H; apply re_search_some in H as (pre & u & _ & L).
  unfold estimated_value_re in L; last_component L.
  destruct L as [[? L] E]; apply Lang_grouped_digits in L; eauto.
Qed.

Lemma year_built_group (s : text) (m : mstate) :
  re_search true year_built_re s = Some m ->
  exists v, grp1 m = Some v /\ length v = 4 /\ all_digits v = true.
Proof.
  intros H; apply re_search_some in H as (pre & u & _ & L).
  unfold year_built_re in L; last_component L.
  destruct L as [[? L] E]; apply Lang_Rep in L as (Hn & Hd & _); eauto.
Qed.

Lemma name_group (s : text) (m : mstate) :
  re_search true name_re s = Some m ->
  exists v, grp1 m = Some v /\ v <> [] /\ forallb is_dot v = true.
Proof.
  intros H; apply re_search_some in H as (pre & u & _ & L).
  unfold name_re in L; last_component L.
  destruct L as [[? L] E]; apply Lang_Plus in L as (Hn & Hd & _); eauto.
Qed.

Lemma distance_group (s : text) (m : mstate) :
  re_search true distance_re s = Some m ->
  exists v, grp1 m = Some v /\ decimal_shape v.
Proof.
  intros H; apply re_search_some in H as (pre & u & _ & L).
  unfold distance_re in L; last_component L.
  destruct L as [[? L] E]; apply Lang_decimal in L; eauto.
Qed.

Lemma rating_group (s : text) (m : mstate) :
  re_search true rating_re s = Some m ->
  exists v, grp1 m = Some v /\ decimal_shape v.
Proof.
  intros H; apply re_search_some in H as (pre & u & _ & L).
  unfold rating_re in L; last_component L.
  destruct L as [[? L] E]; apply Lang_decimal in L; eauto.
Qed.

Lemma type_group (s : text) (m : mstate) :
  re_search true type_re s = Some m ->
  exists v, grp1 m = Some v /\ In (lower v) school_types.
Proof.
  intros H; apply re_search_some in H as (pre & u & _ & L).
  unfold type_re in L; last_component L.
  destruct L as [[? L] E]; apply Lang_Alts_Word in L as [(t & Ht & L) _].
  change (T "elementary school" :: tl school_types) with school_types in Ht.
  eexists; split; [exact E|].
  unfold same_word in L; rewrite L.
  unfold school_types in Ht |- *; simpl in Ht.
  destruct Ht as [<-|[<-|[<-|[]]]]; vm_compute; auto.
Qed.

(** ** The conversions succeed on what is captured *)

Lemma digit_not_point (c : ascii) : is_digit c = true -> is_point c = false.
Proof.
  unfold is_digit, is_point; intros H; apply in_range_spec in H.
  destruct (in_range 46 46 c) eqn:E; [|reflexivity].
  apply in_range_spec in E; lia.
Qed.

Lemma digit_not_comma (c : ascii) : is_digit c = true -> is_comma c = false.
Proof.
  unfold is_digit, is_comma; intros H; apply in_range_spec in H.
  destruct (in_range 44 44 c) eqn:E; [|reflexivity].
  apply in_range_spec in E; lia.
Qed.

Lemma truthy_nonempty (v : text) : v <> [] -> truthy v = true.
Proof. destruct v; [congruence|reflexivity]. Qed.

Lemma cut_at_point_digits (v : text) :
  all_digits v = true -> cut_at_point v = (v, None).
Proof.
  induction v as [|c v IH]; simpl; [reflexivity|]; intros H.
  apply andb_prop in H as [Hc Hv].
  rewrite (digit_not_point _ Hc), (IH Hv); reflexivity.
Qed.

Lemma cut_at_point_app (i f : text) :
  all_digits i = true -> cut_at_point (i ++ T "." ++ f) = (i, Some f).
Proof.
  induction i as [|c i IH]; [reflexivity|]; intros H.
  simpl in H; apply andb_prop in H as [Hc Hi].
  cbn [app cut_at_point]; rewrite (digit_not_point _ Hc), (IH Hi); reflexivity.
Qed.

Lemma py_int_digits (v : text) :
  v <> [] -> all_digits v = true ->
  py_int v = if length v <=? int_max_str_digits
             then Ok (digits_value v) else Raise too_many_digits.
Proof.
  intros Hn Hd; unfold py_int; rewrite (truthy_nonempty Hn), Hd; reflexivity.
Qed.

Lemma py_float_digits (v : text) :
  v <> [] -> all_digits v = true ->
  py_float v = Ok (inject_Z (digits_value v)).
Proof.
  intros Hn Hd; unfold py_float.
  rewrite (cut_at_point_digits _ Hd), (truthy_nonempty Hn), Hd; reflexivity.
Qed.

Lemma py_float_decimal (v : text) :
  decimal_shape v -> exists q, py_float v = Ok q.
Proof.
  intros (i & o & f & -> & Ni & Di & [-> | ->] & Df).
  - eexists; apply py_float_digits.
    + destruct i; [congruence|discriminate].
    + unfold all_digits in *; simpl; rewrite forallb_app, Di, Df; reflexivity.
  - unfold py_float; rewrite (cut_at_point_app i f Di).
    rewrite (truthy_nonempty Ni), Di, Df; simpl; eauto.
Qed.

Lemma remove_commas_grouped (v : text) :
  grouped_digits_shape v ->
  remove_commas v <> [] /\ all_digits (remove_commas v) = true.
Proof.
  intros (c & u & -> & Hc & Hu); unfold remove_commas; simpl.
  rewrite (digit_not_comma _ Hc); simpl; split; [discriminate|].
  rewrite Hc; simpl.
  induction u as [|d u IH]; simpl; [reflexivity|].
  simpl in Hu; apply andb_prop in Hu as [Hd Hu].
  destruct (is_comma d) eqn:E; simpl; [auto|].
  unfold is_digit_or_comma in Hd; rewrite E, orb_false_r in Hd.
  rewrite Hd; simpl; auto.
Qed.

Lemma py_float_grouped (v : text) :
  grouped_digits_shape v ->
  py_float (remove_commas v)
  = Ok (inject_Z (digits_value (remove_commas v))).
Proof.
  intros H; apply remove_commas_grouped in H as [Hn Hd].
  apply py_float_digits; assumption.
Qed.

(** ** [_get_property_details] *)

Lemma group1_some (m : mstate) (v : text) :
  grp1 m = Some v -> group1 (Some m) = Ok v.
Proof. intros H; simpl; rewrite H; reflexivity. Qed.

(** The parse yields all five fields, the five searches having succeeded,
    or fails with an error that the handler catches: the [AttributeError]
    of the first search that found nothing, or the [ValueError] of a
    number of bedrooms too long for [int]. *)
Lemma parse_details_cases (details_text : text) :
  (details_fields_found details_text = true /\
   exists sf bd bt ev yb,
     parse_details details_text
     = Ok (mkPropertyDetails (Some sf) (Some bd) (Some bt) (Some ev) (Some yb)))
  \/
  (exists e, parse_details details_text = Raise e /\ parse_failure e = true).
Proof.
  unfold details_fields_found, parse_details.
  destruct (re_search true square_feet_re details_text) as [m1|] eqn:E1;
    [|right; eexists; split; reflexivity].
  destruct (square_feet_group _ E1) as (v1 & G1 & S1).
  rewrite (group1_some _ G1); cbn [bind]; rewrite (py_float_grouped S1).
  destruct (re_search true bedrooms_re details_text) as [m2|] eqn:E2;
    [|right; eexists; split; reflexivity].
  destruct (bedrooms_group _ E2) as (v2 & G2 & N2 & D2).
  rewrite (group1_some _ G2); cbn [bind]; rewrite (py_int_digits N2 D2).
  destruct (length v2 <=? int_max_str_digits);
    [|right; eexists; split; reflexivity].
  destruct (re_search true bathrooms_re details_text) as [m3|] eqn:E3;
    [|right; eexists; split; reflexivity].
  destruct (bathrooms_group _ E3) as (v3 & G3 & S3).
  destruct (py_float_decimal S3) as (q3 & F3).
  rewrite (group1_some _ G3); cbn [bind]; rewrite F3.
  destruct (re_search true estimated_value_re details_text) as [m4|] eqn:E4;
    [|right; eexists; split; reflexivity].
  destruct (estimated_value_group _ E4) as (v4 & G4 & S4).
  rewrite (group1_some _ G4); cbn [bind]; rewrite (py_float_grouped S4).
  destruct (re_search true year_built_re details_text) as [m5|] eqn:E5;
    [|right; eexists; split; reflexivity].
  destruct (year_built_group _ E5) as (v5 & G5 & N5 & D5).
  assert (v5 <> []) as N5' by (destruct v5; [discriminate|discriminate]).
  rewrite (group1_some _ G5); cbn [bind]; rewrite (py_int_digits N5' D5), N5.
  left; split; [reflexivity|].
  change (4 <=? int_max_str_digits) with true; cbn [bind]; eauto 8.
Qed.

Lemma search_mentions_second (w1 w2 : text) (p : ascii -> bool) (r : regex)
    (s : text) :
  found (re_search true (Word w1 >> Star p >> Word w2 >> r) s) = true ->
  mentions w2 s.
Proof.
  rewrite re_search_found; intros (pre & u & post & g' & -> & L).
  cbn [Lang] in L.
  destruct L as (u1 & u2 & g1 & -> & _ & u3 & u4 & g2 & -> & _ & L).
  apply Lang_Word_seq in L as (u5 & u6 & -> & L).
  exists (pre ++ u1 ++ u3), u5, (u6 ++ post); split; [|exact L].
  rewrite <- !app_assoc; reflexivity.
Qed.

Lemma fields_found_mention (details_text w : text) :
  details_fields_found details_text = true ->
  In w label_words -> mentions w details_text.
Proof.
  unfold details_fields_found; rewrite !andb_true_iff.
  intros ((((H1 & H2) & H3) & H4) & H5) Hw.
  unfold label_words in Hw; simpl in Hw.
  destruct Hw as [<-|[<-|[<-|[<-|[<-|[<-|[<-|[<-|[]]]]]]]]].
  - exact (search_mentions _ _ _ H1).
  - exact (search_mentions_second _ _ _ _ _ H1).
  - exact (search_mentions _ _ _ H2).
  - exact (search_mentions _ _ _ H3).
  - exact (search_mentions _ _ _ H4).
  - exact (search_mentions_second _ _ _ _ _ H4).
  - exact (search_mentions _ _ _ H5).
  - exact (search_mentions_second _ _ _ _ _ H5).
Qed.

(** Once the service has answered, [_get_property_details] returns: all
    five fields, the five searches having succeeded, or none. *)
Lemma get_property_details_answered (client : client_t)
    (address details_text : text) :
  client details_system (details_prompt address) = Ok details_text ->
  exists d, _get_property_details client address = Ok d /\
    (d = no_details \/
     all_present d /\ details_fields_found details_text = true).
Proof.
  intros H; unfold _get_property_details; rewrite H; cbn [bind].
  destruct (parse_details_cases details_text)
    as [(F & sf & bd & bt & ev & yb & E)|(e & E & C)]; rewrite E.
  - eexists; split; [reflexivity|]. right; split; [|exact F].
    unfold all_present; simpl; repeat split; discriminate.
  - rewrite C; eauto.
Qed.

(** C2.  Whatever text the service answers to the details request, the
    resulting PropertyDetails has either all five fields or none of them;
    it has none as soon as one of the five searches finds no label with a
    numeric value, and in particular as soon as one word of a label does
    not occur in the text. *)
Theorem details_parsing_atomic (client : client_t)
    (address details_text : text)
    (H : client details_system (details_prompt address) = Ok details_text) :
  exists d, _get_property_details client address = Ok d /\
    (d = no_details \/ all_present d) /\
    (details_fields_found details_text = false -> d = no_details) /\
    (forall w, In w label_words -> ~ mentions w details_text ->
       d = no_details).
Proof.
  destruct (get_property_details_answered _ _ H) as (d & E & C).
  exists d; split; [exact E|].
  destruct C as [C|[C F]].
  - split; [left; exact C|]. split; intros; exact C.
  - split; [right; exact C|]. split; [congruence|].
    intros w Hw Hm; destruct Hm.
    apply fields_found_mention; assumption.
Qed.

Lemma details_parsing_atomic_witness :
  exists d,
    _get_property_details
      (canned (Ok sample_overview) (Ok sample_details_no_bedrooms)
              (Ok sample_three_schools)) sample_address = Ok d /\
    d = no_details.
Proof.
  destruct (@details_parsing_atomic
              (canned (Ok sample_overview) (Ok sample_details_no_bedrooms)
                      (Ok sample_three_schools))
              sample_address sample_details_no_bedrooms eq_refl)
    as (d & E & _ & F & _).
  exists d; split; [exact E|]. apply F; reflexivity.
Defined.

(** A missing line, and a value that is not a number, both give no field
    at all. *)
Example details_samples :
  _get_property_details
    (canned (Ok sample_overview) (Ok sample_details_no_bedrooms)
            (Ok sample_three_schools)) sample_address
  = Ok no_details /\
  _get_property_details
    (canned (Ok sample_overview)
            (Ok (lines ["Square Feet: 1,200"; "Bedrooms: three";
                        "Bathrooms: 2"; "Estimated Value: $450,000";
                        "Year Built: 1995"]%string))
            (Ok sample_three_schools)) sample_address
  = Ok no_details.
Proof. vm_compute; split; reflexivity. Qed.

(** C9.  The details text of the scenario parses to
    PropertyDetails(1200.0, 3, 2.0, 450000.0, 1995): the comma of "1,200"
    and of "450,000" is removed before the conversion, and the dollar sign
    before the value is skipped; without the dollar sign the value is the
    same. *)
Theorem details_scenario :
  parse_details sample_details
  = Ok (mkPropertyDetails (Some (1200 # 1)%Q) (Some 3%Z) (Some (2 # 1)%Q)
                          (Some (450000 # 1)%Q) (Some 1995%Z)) /\
  _get_property_details
    (canned (Ok sample_overview) (Ok sample_details) (Ok sample_three_schools))
    sample_address
  = Ok (mkPropertyDetails (Some (1200 # 1)%Q) (Some 3%Z) (Some (2 # 1)%Q)
                          (Some (450000 # 1)%Q) (Some 1995%Z)) /\
  remove_commas (T "450,000") = T "450000" /\
  parse_details
    (lines ["Square Feet: 1,200"; "Bedrooms: 3"; "Bathrooms: 2";
            "Estimated Value: 450,000"; "Year Built: 1995"]%string)
  = parse_details sample_details.
Proof. vm_compute; repeat split. Qed.

(** ** [_get_nearby_schools] *)

(** An entry in which the four searches match gives a school, with the
    captured texts converted; any other entry gives none.  The body of the
    loop never raises. *)
Lemma school_of_entry_cases (entry : text) :
  (has_all_fields entry = true /\
   exists n d r t dq rq,
     group1 (re_search true name_re entry) = Ok n /\
     group1 (re_search true distance_re entry) = Ok d /\
     py_float d = Ok dq /\
     group1 (re_search true rating_re entry) = Ok r /\
     py_float r = Ok rq /\
     group1 (re_search true type_re entry) = Ok t /\
     In (lower t) school_types /\
     school_of_entry entry
     = Ok (Some (mkSchool (strip n) dq (Some rq) (lower t))))
  \/
  (has_all_fields entry = false /\ school_of_entry entry = Ok None).
Proof.
  unfold has_all_fields, school_of_entry.
  destruct (re_search true name_re entry) as [m1|] eqn:E1;
    [|right; split; reflexivity].
  destruct (re_search true distance_re entry) as [m2|] eqn:E2;
    [|right; split; reflexivity].
  destruct (re_search true rating_re entry) as [m3|] eqn:E3;
    [|right; split; reflexivity].
  destruct (re_search true type_re entry) as [m4|] eqn:E4;
    [|right; split; reflexivity].
  destruct (name_group _ E1) as (n & G1 & _).
  destruct (distance_group _ E2) as (d & G2 & S2).
  destruct (rating_group _ E3) as (r & G3 & S3).
  destruct (type_group _ E4) as (t & G4 & S4).
  destruct (py_float_decimal S2) as (dq & F2).
  destruct (py_float_decimal S3) as (rq & F3).
  left; split; [reflexivity|].
  exists n, d, r, t, dq, rq.
  rewrite (group1_some _ G1), (group1_some _ G2), (group1_some _ G3),
    (group1_some _ G4).
  cbn [found andb bind]; rewrite F2, F3; cbn [bind].
  repeat split; assumption.
Qed.

Lemma school_in_cases (entry : text) :
  (has_all_fields entry = true /\
   exists s, school_of_entry entry = Ok (Some s) /\ school_in entry = [s])
  \/
  (has_all_fields entry = false /\ school_of_entry entry = Ok None /\
   school_in entry = []).
Proof.
  unfold school_in.
  destruct (school_of_entry_cases entry)
    as [(F & n & d & r & t & dq & rq & _ & _ & _ & _ & _ & _ & _ & E)|(F & E)];
    rewrite E; [left|right]; eauto.
Qed.

Lemma schools_loop_spec (entries : list text) :
  forall schools : list School,
    schools_loop entries schools
    = Ok (schools ++ flat_map school_in entries).
Proof.
  induction entries as [|entry more IH]; intros schools; simpl.
  - rewrite app_nil_r; reflexivity.
  - destruct (school_in_cases entry)
      as [(_ & s & E & I)|(_ & E & I)]; rewrite E, I, IH.
    + rewrite <- app_assoc; reflexivity.
    + reflexivity.
Qed.

Lemma parse_schools_spec (school_text : text) :
  parse_schools school_text
  = Ok (flat_map school_in (school_entries school_text)).
Proof. unfold parse_schools; rewrite schools_loop_spec; reflexivity. Qed.

Lemma get_nearby_schools_spec (client : client_t) (address : text) :
  _get_nearby_schools client address
  = match client schools_system (schools_prompt address) with
    | Ok school_text => flat_map school_in (school_entries school_text)
    | Raise _ => []
    end.
Proof.
  unfold _get_nearby_schools.
  destruct (client schools_system (schools_prompt address)) as [t|e];
    cbn [bind]; [rewrite parse_schools_spec|]; reflexivity.
Qed.

(** The schools are those of the entries with all four fields, one for
    one and in the same order. *)
Lemma schools_follow_entries (entries : list text) :
  Forall2 (fun entry s => school_of_entry entry = Ok (Some s))
    (filter has_all_fields entries) (flat_map school_in entries).
Proof.
  induction entries as [|entry more IH]; simpl; [constructor|].
  destruct (school_in_cases entry)
    as [(F & s & E & I)|(F & E & I)]; rewrite F, I; simpl.
  - constructor; assumption.
  - exact IH.
Qed.

Lemma schools_count (entries : list text) :
  length (flat_map school_in entries)
  = length (filter has_all_fields entries).
Proof.
  symmetry; eapply Forall2_length, schools_follow_entries.
Qed.

Lemma In_flat_map_school (entries : list text) (s : School) :
  In s (flat_map school_in entries) ->
  exists entry, In entry entries /\ school_of_entry entry = Ok (Some s).
Proof.
  rewrite in_flat_map; intros (entry & He & Hs); exists entry; split; [exact He|].
  destruct (school_in_cases entry)
    as [(_ & s' & E & I)|(_ & _ & I)]; rewrite I in Hs.
  - destruct Hs as [<-|[]]; exact E.
  - destruct Hs.
Qed.

Lemma is_newline_eq (c : ascii) : is_newline c = true -> c = NL.
Proof.
  unfold is_newline; intros H; apply in_range_spec in H.
  rewrite <- (ascii_nat_embedding c).
  replace (nat_of_ascii c) with 10 by lia; reflexivity.
Qed.

Lemma split_on_blank_eq (cur s : text) :
  split_on_blank cur s
  = match s with
    | [] => [rev cur]
    | c :: s' =>
        match s' with
        | d :: s'' =>
            if is_newline c && is_newline d
            then rev cur :: split_on_blank [] s''
            else split_on_blank (c :: cur) s'
        | [] => [rev (c :: cur)]
        end
    end.
Proof. destruct s; reflexivity. Qed.

Lemma split_on_blank_nonempty (n : nat) :
  forall s cur : text, length s <= n -> split_on_blank cur s <> [].
Proof.
  induction n as [|n IH]; intros s cur Hl; rewrite split_on_blank_eq;
    destruct s as [|c [|d s]]; try discriminate; simpl in Hl; try lia.
  destruct (is_newline c && is_newline d); [discriminate|].
  apply IH; simpl; lia.
Qed.

(** The pieces of [split('\n\n')], joined by two newlines, give the text
    back: the text is cut at blank lines and nowhere else. *)
Lemma join_split_on_blank (n : nat) :
  forall s cur : text,
    length s <= n -> join_blank (split_on_blank cur s) = rev cur ++ s.
Proof.
  induction n as [|n IH]; intros s cur Hl; rewrite split_on_blank_eq;
    destruct s as [|c [|d s]]; simpl in Hl; try lia;
    try (simpl; rewrite ?app_nil_r; reflexivity).
  destruct (is_newline c && is_newline d) eqn:E.
  - apply andb_prop in E as [Ec Ed].
    apply is_newline_eq in Ec, Ed; subst c d.
    cbn [join_blank].
    pose proof (@split_on_blank_nonempty (length s) s [] (le_n _)) as Hne.
    destruct (split_on_blank [] s) as [|p ps] eqn:Es; [congruence|].
    rewrite <- Es, IH by lia; reflexivity.
  - rewrite IH by (simpl; lia). simpl; rewrite <- app_assoc; reflexivity.
Qed.

Lemma join_split_blank (s : text) : join_blank (split_blank s) = s.
Proof. unfold split_blank; rewrite (@join_split_on_blank (length s)); auto. Qed.

(** C4.  The schools text is cut at blank lines; each non-blank chunk is
    parsed by itself and adds one school when its four searches match and
    nothing otherwise, so the result is the concatenation of what the
    chunks add and parsing never raises; when the text has three chunks
    of which exactly one lacks a field, two schools are returned. *)
Theorem school_parsing_per_entry (school_text : text) :
  join_blank (split_blank school_text) = school_text /\
  parse_schools school_text
  = Ok (flat_map school_in (school_entries school_text)) /\
  (forall entry, has_all_fields entry = false -> school_in entry = []) /\
  (forall entry, has_all_fields entry = true ->
     exists s, school_in entry = [s]) /\
  (forall e1 e2 e3,
     school_entries school_text = [e1; e2; e3] ->
     length (filter (fun e => negb (has_all_fields e)) [e1; e2; e3]) = 1 ->
     exists s1 s2, parse_schools school_text = Ok [s1; s2]).
Proof.
  split; [apply join_split_blank|].
  split; [apply parse_schools_spec|].
  assert (forall entry, has_all_fields entry = false -> school_in entry = [])
    as Hskip.
  { intros entry F; destruct (school_in_cases entry)
      as [(F' & _)|(_ & _ & I)]; [congruence|exact I]. }
  assert (forall entry, has_all_fields entry = true ->
            exists s, school_in entry = [s]) as Hkeep.
  { intros entry F; destruct (school_in_cases entry)
      as [(_ & s & _ & I)|(F' & _)]; [eauto|congruence]. }
  split; [exact Hskip|]. split; [exact Hkeep|].
  intros e1 e2 e3 E H; rewrite parse_schools_spec, E; simpl in H |- *.
  destruct (has_all_fields e1) eqn:F1, (has_all_fields e2) eqn:F2,
    (has_all_fields e3) eqn:F3; simpl in H; try discriminate H;
    repeat match goal with
      | F : has_all_fields ?e = true |- _ =>
          destruct (Hkeep e F) as [? ->]; clear F
      | F : has_all_fields ?e = false |- _ =>
          rewrite (Hskip e F); clear F
      end; simpl; eauto.
Qed.

Lemma school_parsing_per_entry_witness :
  exists s1 s2, parse_schools sample_three_schools = Ok [s1; s2].
Proof.
  destruct (school_parsing_per_entry sample_three_schools)
    as (_ & _ & _ & _ & H).
  apply (H (T "Name: Lincoln Elementary" ++ NL :: T "Distance: 0.5 miles"
              ++ NL :: T "Rating: 8/10" ++ NL :: T "Type: Elementary School")
           sample_entry_no_rating
           (T "Name: Central High" ++ NL :: T "Distance: 2 miles"
              ++ NL :: T "Rating: 9/10" ++ NL :: T "Type: High School"));
    vm_compute; reflexivity.
Defined.

(** C5, as amended.  The rating is required: an entry in which the search
    for the rating finds nothing is skipped, whatever else it holds, and a
    school that the loop body produces has its rating present. *)
Theorem rating_is_required (entry : text) :
  (found (re_search true rating_re entry) = false ->
   school_of_entry entry = Ok None /\ school_in entry = []) /\
  (forall s, school_of_entry entry = Ok (Some s) ->
     exists r, rating s = Some r).
Proof.
  destruct (school_of_entry_cases entry)
    as [(F & n & d & r & t & dq & rq & _ & _ & _ & _ & _ & _ & _ & E)|(F & E)].
  - split.
    + intros H; unfold has_all_fields in F; rewrite H in F.
      rewrite andb_false_r in F; discriminate.
    + intros s Hs; rewrite E in Hs; injection Hs as <-; simpl; eauto.
  - split.
    + intros _; unfold school_in; rewrite E; auto.
    + intros s Hs; rewrite E in Hs; discriminate.
Qed.

Lemma rating_is_required_witness :
  school_of_entry sample_entry_no_rating = Ok None /\
  school_in sample_entry_no_rating = [].
Proof.
  apply (proj1 (rating_is_required sample_entry_no_rating)).
  vm_compute; reflexivity.
Defined.

(** C5 as the specification words it: no entry with a name, a distance
    and a type but no rating gives a school without a rating; the sample
    entry of that kind gives no school at all. *)
Lemma no_school_without_rating :
  school_of_entry sample_entry_no_rating = Ok None /\
  ~ (exists entry s,
       found (re_search true name_re entry) = true /\
       found (re_search true distance_re entry) = true /\
       found (re_search true type_re entry) = true /\
       found (re_search true rating_re entry) = false /\
       school_of_entry entry = Ok (Some s) /\ rating s = None).
Proof.
  split; [vm_compute; reflexivity|].
  intros (entry & s & _ & _ & _ & Hr & Hs & Hn).
  destruct (school_of_entry_cases entry)
    as [(F & _)|(_ & E)]; [|rewrite E in Hs; discriminate].
  unfold has_all_fields in F; rewrite Hr, andb_false_r in F; discriminate.
Qed.

(** ** [get_home_information] *)

Lemma get_home_information_eq (client : client_t) (address : text) :
  get_home_information client address
  = match client overview_system (overview_prompt address) with
    | Raise e => Raise (retrieval_error e)
    | Ok overview =>
        match _get_property_details client address with
        | Ok details =>
            Ok (mkHomeInformation address overview details
                  (_get_nearby_schools client address))
        | Raise e => Raise (retrieval_error e)
        end
    end.
Proof.
  unfold get_home_information, _get_property_overview.
  destruct (client overview_system (overview_prompt address)); cbn [bind];
    [|reflexivity].
  destruct (_get_property_details client address); reflexivity.
Qed.


Lemma returned_schools (client : client_t) (address : text)
    (info : HomeInformation) :
  get_home_information client address = Ok info ->
  nearby_schools info = _get_nearby_schools client address.
Proof.
  rewrite get_home_information_eq.
  destruct (client overview_system (overview_prompt address)); [|discriminate].
  destruct (_get_property_details client address); [|discriminate].
  intros H; injection H as <-; reflexivity.
Qed.

(** C6, as amended.  The schools of the returned record are those of the
    chunks of the schools text in which the four searches match, one for
    one and in the order of the chunks; their number is at most the number
    of non-blank chunks, with no other bound. *)
Theorem nearby_schools_in_order (client : client_t)
    (address school_text : text) (info : HomeInformation)
    (Hs : client schools_system (schools_prompt address) = Ok school_text)
    (Hi : get_home_information client address = Ok info) :
  Forall2 (fun entry s => school_of_entry entry = Ok (Some s))
    (filter has_all_fields (school_entries school_text))
    (nearby_schools info) /\
  length (nearby_schools info) <= length (school_entries school_text).
Proof.
  rewrite (returned_schools _ _ Hi), get_nearby_schools_spec, Hs.
  split; [apply schools_follow_entries|].
  rewrite schools_count; apply filter_length_le.
Qed.

Lemma nearby_schools_in_order_witness :
  exists info,
    get_home_information
      (canned (Ok sample_overview) (Ok sample_details)
              (Ok sample_four_schools)) sample_address = Ok info /\
    length (nearby_schools info) <= 4.
Proof.
  eexists; split; [vm_compute; reflexivity|].
  refine (proj2 (@nearby_schools_in_order
            (canned (Ok sample_overview) (Ok sample_details)
                    (Ok sample_four_schools))
            sample_address sample_four_schools _ _ _));
    vm_compute; reflexivity.
Defined.

(** C6 as the specification words it fails: a schools text with four
    well-formed chunks gives a record with four schools. *)
Lemma four_schools_returned :
  exists info,
    get_home_information
      (canned (Ok sample_overview) (Ok sample_details)
              (Ok sample_four_schools)) sample_address = Ok info /\
    ~ length (nearby_schools info) <= 3.
Proof.
  eexists; split; [vm_compute; reflexivity|].
  vm_compute; intros H; repeat apply le_S_n in H; inversion H.
Qed.



(** C7.  When the schools request raises, [_get_nearby_schools] returns
    the empty list, and the record that [get_home_information] returns
    once the overview and the details requests have answered has no
    schools; when the overview request raises, [get_home_information]
    raises an error whose text is "Error retrieving home information: "
    followed by the text of the cause. *)
Theorem transport_failures (client : client_t) (address : text) (e : exn) :
  (client schools_system (schools_prompt address) = Raise e ->
   _get_nearby_schools client address = [] /\
   (forall info, get_home_information client address = Ok info ->
      nearby_schools info = []) /\
   (forall overview details_text,
      client overview_system (overview_prompt address) = Ok overview ->
      client details_system (details_prompt address) = Ok details_text ->
      exists d, get_home_information client address
                = Ok (mkHomeInformation address overview d []))) /\
  (client overview_system (overview_prompt address) = Raise e ->
   get_home_information client address = Raise (retrieval_error e) /\
   exn_str (retrieval_error e)
   = T "Error retrieving home information: " ++ exn_str e).
Proof.
  split.
  - intros Hs.
    assert (_get_nearby_schools client address = []) as E
      by (rewrite get_nearby_schools_spec, Hs; reflexivity).
    split; [exact E|]. split.
    + intros info Hi; rewrite (returned_schools _ _ Hi); exact E.
    + intros overview details_text Ho Hd.
      destruct (get_property_details_answered _ _ Hd) as (d & Ed & _).
      exists d; rewrite get_home_information_eq, Ho, Ed, E; reflexivity.
  - intros Ho; rewrite get_home_information_eq, Ho; split; reflexivity.
Qed.

Lemma transport_failures_witness :
  (exists d,
     get_home_information
       (canned (Ok sample_overview) (Ok sample_details)
               (Raise connection_error)) sample_address
     = Ok (mkHomeInformation sample_address sample_overview d [])) /\
  get_home_information
    (canned (Raise connection_error) (Ok sample_details)
            (Ok sample_three_schools)) sample_address
  = Raise (retrieval_error connection_error).
Proof.
  split.
  - destruct (proj1 (transport_failures
                       (canned (Ok sample_overview) (Ok sample_details)
                               (Raise connection_error))
                       sample_address connection_error))
      as (_ & _ & H); [vm_compute; reflexivity|].
    apply (H sample_overview sample_details); vm_compute; reflexivity.
  - apply (proj2 (transport_failures
                    (canned (Raise connection_error) (Ok sample_details)
                            (Ok sample_three_schools))
                    sample_address connection_error)).
    vm_compute; reflexivity.
Defined.




(* ================================================================== *)
(** * Further properties *)

(** ** Letter case and blanks *)



Lemma is_digit_lower (c : ascii) : is_digit (lower_char c) = is_digit c.
Proof. each_char c. Qed.



Lemma is_comma_lower (c : ascii) : is_comma (lower_char c) = is_comma c.
Proof. each_char c. Qed.






(** [lstrip] drops a prefix of blanks and leaves no blank in front. *)
Lemma lstrip_spec (s : text) :
  exists w, s = w ++ lstrip s /\ forallb is_space w = true /\
    match lstrip s with c :: _ => is_space c = false | [] => True end.
Proof.
  induction s as [|c s (w & E & Hw & H)]; simpl.
  - exists []; auto.
  - destruct (is_space c) eqn:Ec.
    + exists (c :: w); simpl; rewrite Ec, <- E; auto.
    + exists []; auto.
Qed.

(** [rstrip] drops a suffix of blanks and leaves no blank at the end. *)
Lemma rstrip_spec (s : text) :
  exists w, s = rstrip s ++ w /\ forallb is_space w = true /\
    match rev (rstrip s) with c :: _ => is_space c = false | [] => True end.
Proof.
  unfold rstrip; destruct (lstrip_spec (rev s)) as (w & E & Hw & H).
  exists (rev w); rewrite rev_involutive; repeat split.
  - rewrite <- rev_app_distr, <- E, rev_involutive; reflexivity.
  - rewrite forallb_rev; exact Hw.
  - exact H.
Qed.

Lemma strip_length (s : text) : length (strip s) <= length s.
Proof.
  unfold strip.
  destruct (lstrip_spec s) as (w & E & _).
  destruct (rstrip_spec (lstrip s)) as (w' & E' & _).
  rewrite E at 2; rewrite E' at 2; rewrite !length_app; lia.
Qed.

(** A text with no blank at either end is its own [strip]. *)
Lemma lstrip_fixed (s : text) :
  match s with c :: _ => is_space c = false | [] => True end ->
  lstrip s = s.
Proof. destruct s as [|c s]; simpl; [reflexivity|]; intros ->; reflexivity. Qed.

Lemma strip_ends (s : text) :
  match strip s with c :: _ => is_space c = false | [] => True end /\
  match rev (strip s) with c :: _ => is_space c = false | [] => True end.
Proof.
  unfold strip.
  destruct (lstrip_spec s) as (_ & _ & _ & H).
  destruct (rstrip_spec (lstrip s)) as (w & E & _ & H').
  split; [|exact H'].
  destruct (rstrip (lstrip s)) as [|c r] eqn:Er; [exact I|].
  rewrite E in H; exact H.
Qed.

Lemma strip_idem (s : text) : strip (strip s) = strip s.
Proof.
  destruct (strip_ends s) as [H1 H2].
  unfold strip at 1; rewrite (lstrip_fixed _ H1).
  unfold rstrip; rewrite (lstrip_fixed _ H2); apply rev_involutive.
Qed.

(** ** More on [validate_zipcode] *)


(** ** More on [validate_street] *)


Lemma lower_cons_inv (s : text) (c' : ascii) (r' : text) :
  lower s = c' :: r' ->
  exists c r, s = c :: r /\ lower_char c = c' /\ lower r = r'.
Proof.
  destruct s as [|c r]; simpl; [discriminate|].
  intros H; injection H as <- <-; eauto.
Qed.

Lemma lower_app_inv (s a b : text) :
  lower s = a ++ b ->
  exists sa sb, s = sa ++ sb /\ lower sa = a /\ lower sb = b.
Proof.
  revert s; induction a as [|c a IH]; intros s H.
  - exists [], s; auto.
  - apply lower_cons_inv in H as (c0 & r & -> & <- & H).
    apply IH in H as (sa & sb & -> & <- & <-).
    exists (c0 :: sa), sb; auto.
Qed.

(** X3.  A street that [validate_street] accepts starts with a digit (so
    not with a blank), has between 5 and 100 characters, and holds one of
    the street types in some letter case. *)
Theorem valid_street_needs (s : text) (H : validate_street s = true) :
  (exists c r, s = c :: r /\ is_digit c = true) /\
  5 <= length s <= 100 /\
  exists t, In t street_types /\ mentions t s.
Proof.
  unfold validate_street in H.
  destruct (negb (truthy s) || (length (strip s) <? 5) || (100 <? length s))
    eqn:G; [discriminate|].
  apply orb_false_elim in G as [G G3]; apply orb_false_elim in G as [_ G2].
  apply Nat.ltb_ge in G2, G3.
  pose proof (strip_length s) as Hl.
  apply street_re_spec in H
    as (d & x & w & y & t & z & E & Nd & Dd & _ & _ & _ & _ & _ & _ & _ & _
        & Ht & _).
  split; [|split; [lia|]].
  - destruct d as [|c' d]; [congruence|].
    simpl in E; apply lower_cons_inv in E as (c & r & -> & <- & _).
    simpl in Dd; apply andb_prop in Dd as [Dc _].
    rewrite is_digit_lower in Dc; eauto.
  - exists t; split; [exact Ht|].
    replace (d ++ x ++ w ++ y ++ t ++ z) with ((d ++ x ++ w ++ y) ++ t ++ z)
      in E by (rewrite <- !app_assoc; reflexivity).
    apply lower_app_inv in E as (pre & rest' & -> & _ & E).
    apply lower_app_inv in E as (u & post & -> & E & _).
    exists pre, u, post; split; [reflexivity|].
    rewrite E; unfold street_types in Ht; simpl in Ht.
    repeat (destruct Ht as [<-|Ht]; [reflexivity|]); destruct Ht.
Qed.

Lemma valid_street_needs_witness :
  exists c r, T "123 Main St" = c :: r /\ is_digit c = true.
Proof.
  apply (proj1 (@valid_street_needs (T "123 Main St") eq_refl)).
Defined.

(** ** [validate_state] *)

Lemma upper_char_shape (a : ascii) :
  upper_char a = [83; 83] \/ exists n, upper_char a = [n].
Proof.
  destruct a as [[] [] [] [] [] [] [] []]; vm_compute; eauto.
Qed.

Lemma upper_to_lower (a : ascii) (x : nat) :
  upper_char a = [x] -> 65 <= x <= 90 ->
  lower_char a = ascii_of_nat (x + 32).
Proof.
  intros H Hx; revert H.
  destruct a as [[] [] [] [] [] [] [] []]; intros H; vm_compute in H;
    first [discriminate H | injection H as <-; solve [reflexivity | lia]].
Qed.

Lemma lower_letter_upper (a : ascii) :
  97 <= nat_of_ascii (lower_char a) <= 122 ->
  is_alpha a = true /\
  upper_char a = [nat_of_ascii (lower_char a) - 32].
Proof.
  destruct a as [[] [] [] [] [] [] [] []]; vm_compute; intros H;
    solve [lia | split; reflexivity].
Qed.

Lemma lower_to_upper (a : ascii) (x : nat) :
  65 <= x <= 90 -> lower_char a = ascii_of_nat (x + 32) ->
  is_alpha a = true /\ upper_char a = [x].
Proof.
  intros Hx H.
  assert (nat_of_ascii (lower_char a) = x + 32) as E
    by (rewrite H; apply nat_ascii_embedding; lia).
  destruct (lower_letter_upper a) as [A U]; [lia|].
  split; [exact A|]. rewrite U, E; f_equal; lia.
Qed.

Lemma state_code_shape (code : text) :
  In code valid_states ->
  exists x y, points code = [x; y] /\ 65 <= x <= 90 /\ 65 <= y <= 90 /\
    lower code = [ascii_of_nat (x + 32); ascii_of_nat (y + 32)].
Proof.
  unfold valid_states; simpl; intros H.
  repeat (destruct H as [<-|H];
          [eexists; eexists; split; [reflexivity|]; vm_compute;
           repeat split; lia|]).
  destruct H.
Qed.

Lemma points_eqb_eq (a b : list nat) : points_eqb a b = true <-> a = b.
Proof.
  unfold points_eqb; destruct (list_eq_dec Nat.eq_dec a b); split;
    congruence.
Qed.

Lemma validate_state_core (s : text) :
  validate_state s = true <->
  exists code, In code valid_states /\ lower s = lower code.
Proof.
  unfold validate_state, isalpha; split.
  - rewrite !andb_true_iff; intros (((_ & Hl) & _) & He).
    apply existsb_exists in He as (code & Hc & He).
    apply points_eqb_eq in He.
    exists code; split; [exact Hc|].
    apply state_code_shape in Hc as (x & y & Ep & Hx & Hy & ->).
    rewrite Ep in He; apply Nat.eqb_eq in Hl.
    destruct s as [|a [|b [|c s]]]; try discriminate Hl.
    unfold upper in He; simpl in He; rewrite app_nil_r in He.
    destruct (upper_char_shape a) as [Ea|(n & Ea)],
      (upper_char_shape b) as [Eb|(m & Eb)];
      rewrite Ea, Eb in He; try discriminate He.
    injection He as -> ->; simpl.
    rewrite (upper_to_lower _ Ea Hx), (upper_to_lower _ Eb Hy); reflexivity.
  - intros (code & Hc & E).
    destruct (state_code_shape Hc) as (x & y & Ep & Hx & Hy & El).
    rewrite El in E.
    destruct s as [|a [|b [|c s]]]; try discriminate E.
    simpl in E; injection E as Ea Eb.
    apply (lower_to_upper _ Hx) in Ea as [Aa Ua].
    apply (lower_to_upper _ Hy) in Eb as [Ab Ub].
    cbn [truthy length Nat.eqb forallb]; rewrite Aa, Ab; cbn [andb].
    apply existsb_exists; exists code; split; [exact Hc|].
    apply points_eqb_eq; unfold upper; simpl; rewrite Ua, Ub, Ep; reflexivity.
Qed.


Example validate_state_samples :
  validate_state (T "CA") = true /\ validate_state (T "ca") = true /\
  validate_state (T "ZZ") = false /\ validate_state (T "C") = false /\
  validate_state (T "California") = false /\
  validate_state (T "DC") = false.
Proof. vm_compute; repeat split. Qed.

(** ** The numbers that the parsers produce *)

Lemma digit_value_range (c : ascii) :
  is_digit c = true -> (0 <= digit_value c <= 9)%Z.
Proof.
  unfold is_digit, digit_value; intros H; apply in_range_spec in H; lia.
Qed.

Lemma digits_fold_nonneg (s : text) :
  forall acc : Z, (0 <= acc)%Z ->
    (0 <= fold_left (fun a c => (a * 10 + digit_value c)%Z) s acc)%Z.
Proof.
  induction s as [|c s IH]; intros acc Ha; simpl; [exact Ha|].
  apply IH; unfold digit_value; lia.
Qed.

Lemma digits_value_nonneg (s : text) : (0 <= digits_value s)%Z.
Proof. apply digits_fold_nonneg; lia. Qed.

Lemma digits_fold_bound (s : text) :
  forall acc : Z, (0 <= acc)%Z -> all_digits s = true ->
    (fold_left (fun a c => (a * 10 + digit_value c)%Z) s acc
     < (acc + 1) * 10 ^ Z.of_nat (length s))%Z.
Proof.
  induction s as [|c s IH]; intros acc Ha Hd.
  - simpl; lia.
  - simpl in Hd; apply andb_prop in Hd as [Hc Hd].
    pose proof (digit_value_range _ Hc) as Hv.
    cbn [fold_left length].
    assert (0 <= acc * 10 + digit_value c)%Z as Ha' by lia.
    specialize (IH _ Ha' Hd).
    rewrite Nat2Z.inj_succ, Z.pow_succ_r by lia.
    assert (0 < 10 ^ Z.of_nat (length s))%Z by (apply Z.pow_pos_nonneg; lia).
    nia.
Qed.

(** A run of [n] digits denotes a number below the [n]-th power of ten. *)
Lemma digits_value_bound (s : text) :
  all_digits s = true -> (digits_value s < 10 ^ Z.of_nat (length s))%Z.
Proof.
  intros H; pose proof (@digits_fold_bound s 0%Z (Z.le_refl 0) H) as B.
  unfold digits_value; lia.
Qed.

Lemma py_int_nonneg (s : text) (z : Z) : py_int s = Ok z -> (0 <= z)%Z.
Proof.
  unfold py_int; destruct (truthy s && all_digits s); [|discriminate].
  destruct (length s <=? int_max_str_digits); [|discriminate].
  intros H; injection H as <-; apply digits_value_nonneg.
Qed.

Lemma py_float_nonneg (s : text) (q : Q) : py_float s = Ok q -> (0 <= q)%Q.
Proof.
  unfold py_float; destruct (cut_at_point s) as [i [f|]].
  - destruct (truthy i && all_digits i && all_digits f); [|discriminate].
    intros H.
    replace q with (Qred (digits_value (i ++ f) # pow10 (length f)))
      by congruence.
    rewrite Qred_correct.
    pose proof (digits_value_nonneg (i ++ f)).
    unfold Qle; simpl; lia.
  - destruct (truthy i && all_digits i); [|discriminate].
    intros H; injection H as <-.
    pose proof (digits_value_nonneg i).
    unfold Qle; simpl; lia.
Qed.

Lemma bind_ok {A B : Type} (m : result A) (f : A -> result B) (b : B) :
  bind m f = Ok b -> exists a, m = Ok a /\ f a = Ok b.
Proof. destruct m as [a|e]; simpl; [eauto|discriminate]. Qed.

Lemma group1_ok (m : option mstate) (g : text) :
  group1 m = Ok g -> exists st, m = Some st /\ grp1 st = Some g.
Proof.
  destruct m as [st|]; simpl; [|discriminate].
  destruct (grp1 st) as [v|] eqn:E; [|discriminate].
  intros H; injection H as <-; eauto.
Qed.

(** The fields of a parsed details text, as conversions of what the five
    searches captured. *)
Lemma parse_details_ok (details_text : text) (d : PropertyDetails) :
  parse_details details_text = Ok d ->
  exists g1 q1 g2 z2 g3 q3 g4 q4 g5 z5,
    group1 (re_search true square_feet_re details_text) = Ok g1 /\
    py_float (remove_commas g1) = Ok q1 /\
    group1 (re_search true bedrooms_re details_text) = Ok g2 /\
    py_int g2 = Ok z2 /\
    group1 (re_search true bathrooms_re details_text) = Ok g3 /\
    py_float g3 = Ok q3 /\
    group1 (re_search true estimated_value_re details_text) = Ok g4 /\
    py_float (remove_commas g4) = Ok q4 /\
    group1 (re_search true year_built_re details_text) = Ok g5 /\
    py_int g5 = Ok z5 /\
    d = mkPropertyDetails (Some q1) (Some z2) (Some q3) (Some q4) (Some z5).
Proof.
  unfold parse_details; intros H.
  apply bind_ok in H as (g1 & G1 & H); apply bind_ok in H as (q1 & F1 & H).
  apply bind_ok in H as (g2 & G2 & H); apply bind_ok in H as (z2 & F2 & H).
  apply bind_ok in H as (g3 & G3 & H); apply bind_ok in H as (q3 & F3 & H).
  apply bind_ok in H as (g4 & G4 & H); apply bind_ok in H as (q4 & F4 & H).
  apply bind_ok in H as (g5 & G5 & H); apply bind_ok in H as (z5 & F5 & H).
  injection H as <-.
  exists g1, q1, g2, z2, g3, q3, g4, q4, g5, z5; repeat split; assumption.
Qed.

Lemma get_property_details_ok (client : client_t) (address : text)
    (d : PropertyDetails) :
  _get_property_details client address = Ok d ->
  d = no_details \/
  exists details_text,
    client details_system (details_prompt address) = Ok details_text /\
    parse_details details_text = Ok d.
Proof.
  unfold _get_property_details.
  destruct (client details_system (details_prompt address)) as [t|e];
    cbn [bind].
  - destruct (parse_details t) as [d'|e] eqn:E.
    + intros H; injection H as <-; right; eauto.
    + destruct (parse_failure e); [|discriminate].
      intros H; injection H as <-; left; reflexivity.
  - destruct (parse_failure e); [|discriminate].
    intros H; injection H as <-; left; reflexivity.
Qed.

(** X5.  The details that [_get_property_details] returns hold no
    negative number, and a year between 0 and 9999. *)
Theorem details_are_bounded (client : client_t) (address : text)
    (d : PropertyDetails)
    (H : _get_property_details client address = Ok d) :
  opt_holds (fun q => 0 <= q)%Q (square_feet d) /\
  opt_holds (fun n => 0 <= n)%Z (bedrooms d) /\
  opt_holds (fun q => 0 <= q)%Q (bathrooms d) /\
  opt_holds (fun q => 0 <= q)%Q (estimated_value d) /\
  opt_holds (fun y => 0 <= y <= 9999)%Z (year_built d).
Proof.
  apply get_property_details_ok in H as [-> |(t & _ & H)];
    [simpl; tauto|].
  apply parse_details_ok in H
    as (g1 & q1 & g2 & z2 & g3 & q3 & g4 & q4 & g5 & z5
        & _ & F1 & _ & F2 & _ & F3 & _ & F4 & G5 & F5 & ->).
  simpl; repeat split;
    eauto using py_float_nonneg, py_int_nonneg.
  apply group1_ok in G5 as (m & S5 & G5).
  apply year_built_group in S5 as (v & G5' & L5 & D5).
  rewrite G5 in G5'; injection G5' as <-.
  unfold py_int in F5; rewrite D5 in F5.
  destruct g5; [discriminate L5|]; cbn [truthy andb] in F5.
  destruct (length (a :: g5) <=? int_max_str_digits); [|discriminate].
  injection F5 as <-.
  pose proof (digits_value_bound _ D5) as B; rewrite L5 in B.
  change (10 ^ Z.of_nat 4)%Z with 10000%Z in B; lia.
Qed.

Lemma details_are_bounded_witness :
  opt_holds (fun y => 0 <= y <= 9999)%Z (Some 1995%Z).
Proof.
  apply (@details_are_bounded
           (canned (Ok sample_overview) (Ok sample_details)
                   (Ok sample_three_schools))
           sample_address
           (mkPropertyDetails (Some (1200 # 1)%Q) (Some 3%Z) (Some (2 # 1)%Q)
                              (Some (450000 # 1)%Q) (Some 1995%Z))).
  vm_compute; reflexivity.
Defined.

(** X6.  Every school that [_get_nearby_schools] returns has a distance
    and a rating that are not negative. *)
Theorem schools_are_bounded (client : client_t) (address : text)
    (s : School) (H : In s (_get_nearby_schools client address)) :
  (0 <= distance s)%Q /\ opt_holds (fun q => 0 <= q)%Q (rating s).
Proof.
  rewrite get_nearby_schools_spec in H.
  destruct (client schools_system (schools_prompt address)) as [txt|e];
    [|destruct H].
  apply In_flat_map_school in H as (entry & _ & E).
  destruct (school_of_entry_cases entry)
    as [(_ & n & d & r & t & dq & rq & _ & _ & F2 & _ & F3 & _ & _ & E')
       |(_ & E')]; rewrite E' in E; [|discriminate].
  injection E as <-; simpl; split; eauto using py_float_nonneg.
Qed.

Lemma schools_are_bounded_witness :
  (0 <= 2 # 1)%Q /\ opt_holds (fun q => 0 <= q)%Q (Some (9 # 1)%Q).
Proof.
  apply (@schools_are_bounded
           (canned (Ok sample_overview) (Ok sample_details)
                   (Ok sample_three_schools))
           sample_address
           (mkSchool (T "Central High") (2 # 1)%Q (Some (9 # 1)%Q)
                     (T "high school"))).
  vm_compute; right; left; reflexivity.
Defined.

(** ** More on the schools *)

Lemma forallb_strip (p : ascii -> bool) (s : text) :
  forallb p s = true -> forallb p (strip s) = true.
Proof.
  unfold strip; intros H.
  destruct (lstrip_spec s) as (w & E & _).
  destruct (rstrip_spec (lstrip s)) as (w' & E' & _).
  rewrite E, forallb_app in H; apply andb_prop in H as [_ H].
  rewrite E', forallb_app in H; apply andb_prop in H as [H _]; exact H.
Qed.

(** X7.  The name of every school that [_get_nearby_schools] returns
    lies on one line and has no blank at either end. *)
Theorem school_names_are_trimmed (client : client_t) (address : text)
    (s : School) (H : In s (_get_nearby_schools client address)) :
  forallb is_dot (name s) = true /\ strip (name s) = name s.
Proof.
  rewrite get_nearby_schools_spec in H.
  destruct (client schools_system (schools_prompt address)) as [txt|e];
    [|destruct H].
  apply In_flat_map_school in H as (entry & _ & E).
  destruct (school_of_entry_cases entry)
    as [(_ & n & d & r & t & dq & rq & G1 & _ & _ & _ & _ & _ & _ & E')
       |(_ & E')]; rewrite E' in E; [|discriminate].
  injection E as <-; simpl; split; [|apply strip_idem].
  apply group1_ok in G1 as (m & S1 & G1).
  apply name_group in S1 as (v & G1' & _ & Dv).
  rewrite G1 in G1'; injection G1' as <-.
  apply forallb_strip; exact Dv.
Qed.

Lemma school_names_are_trimmed_witness :
  strip (T "Central High") = T "Central High".
Proof.
  apply (proj2 (@school_names_are_trimmed
           (canned (Ok sample_overview) (Ok sample_details)
                   (Ok sample_three_schools))
           sample_address
           (mkSchool (T "Central High") (2 # 1)%Q (Some (9 # 1)%Q)
                     (T "high school"))
           ltac:(vm_compute; right; left; reflexivity))).
Defined.

Lemma lstrip_blank (s : text) : forallb is_space s = true -> lstrip s = [].
Proof.
  induction s as [|c s IH]; simpl; [reflexivity|].
  intros H; apply andb_prop in H as [-> H]; auto.
Qed.

Lemma strip_blank (s : text) : forallb is_space s = true -> strip s = [].
Proof. intros H; unfold strip; rewrite (lstrip_blank _ H); reflexivity. Qed.

Lemma split_on_blank_blank (n : nat) :
  forall s cur : text,
    length s <= n ->
    forallb is_space cur = true -> forallb is_space s = true ->
    Forall (fun piece => forallb is_space piece = true)
      (split_on_blank cur s).
Proof.
  induction n as [|n IH]; intros s cur Hl Hc Hs; rewrite split_on_blank_eq;
    destruct s as [|c [|d s]]; simpl in Hl; try lia.
  - constructor; [rewrite forallb_rev; exact Hc|constructor].
  - constructor; [rewrite forallb_rev; exact Hc|constructor].
  - constructor; [|constructor].
    rewrite forallb_rev; simpl in Hs |- *.
    apply andb_prop in Hs as [-> _]; exact Hc.
  - simpl in Hs; apply andb_prop in Hs as [Sc Hs].
    pose proof Hs as Hs'; simpl in Hs'; apply andb_prop in Hs' as [Sd Hs'].
    destruct (is_newline c && is_newline d).
    + constructor; [rewrite forallb_rev; exact Hc|].
      apply IH; [lia|reflexivity|exact Hs'].
    + apply IH; [simpl; lia|simpl; rewrite Sc; exact Hc|exact Hs].
Qed.

Lemma school_entries_blank (school_text : text) :
  forallb is_space school_text = true -> school_entries school_text = [].
Proof.
  intros H; unfold school_entries, split_blank.
  pose proof (@split_on_blank_blank (length school_text) school_text []
                (le_n _) eq_refl H) as F.
  induction F as [|piece more Hp _ IH]; simpl; [reflexivity|].
  rewrite (strip_blank _ Hp); exact IH.
Qed.

(** X8.  When the service answers the schools request with nothing but
    blanks, the empty text included, no school is returned. *)
Theorem blank_answer_no_school (client : client_t)
    (address school_text : text)
    (Hs : client schools_system (schools_prompt address) = Ok school_text)
    (Hb : forallb is_space school_text = true) :
  _get_nearby_schools client address = [].
Proof.
  rewrite get_nearby_schools_spec, Hs, (school_entries_blank _ Hb).
  reflexivity.
Qed.

Lemma blank_answer_no_school_witness :
  _get_nearby_schools
    (canned (Ok sample_overview) (Ok sample_details)
            (Ok (T " " ++ [NL; NL] ++ T "  "))) sample_address = [].
Proof.
  apply (@blank_answer_no_school _ _ (T " " ++ [NL; NL] ++ T "  "));
    vm_compute; reflexivity.
Defined.

(** X9.  A record that [get_home_information] returns carries the address
    as given, the text of the service's answer to the overview request as
    it came, and details that have all five fields or none. *)
Theorem returned_record (client : client_t) (addr : text)
    (info : HomeInformation)
    (H : get_home_information client addr = Ok info) :
  address info = addr /\
  client overview_system (overview_prompt addr) = Ok (overview info) /\
  (details info = no_details \/ all_present (details info)).
Proof.
  rewrite get_home_information_eq in H.
  destruct (client overview_system (overview_prompt addr)) as [ov|e];
    [|discriminate].
  destruct (_get_property_details client addr) as [d|e] eqn:D;
    [|discriminate].
  injection H as <-; simpl; repeat split.
  apply get_property_details_ok in D as [-> |(t & _ & D)]; [left; reflexivity|].
  apply parse_details_ok in D
    as (g1 & q1 & g2 & z2 & g3 & q3 & g4 & q4 & g5 & z5
        & _ & _ & _ & _ & _ & _ & _ & _ & _ & _ & ->).
  right; unfold all_present; simpl; repeat split; discriminate.
Qed.

Lemma returned_record_witness :
  address
    (mkHomeInformation sample_address sample_overview no_details [])
  = sample_address.
Proof.
  apply (proj1 (@returned_record
           (canned (Ok sample_overview) (Ok sample_details_no_bedrooms)
                   (Raise connection_error))
           sample_address
           (mkHomeInformation sample_address sample_overview no_details [])
           ltac:(vm_compute; reflexivity))).
Defined.

(** ** The loops of [main] *)

(** X10.  A loop of [main] skips the lines that are not valid, answers
    each of them with the complaint and a new prompt, and stops at the
    first valid line, whose value it keeps, leaving the later lines
    unread; when no line is valid it ends with EOFError after a last
    prompt. *)
Theorem ask_stops_at_first_valid (prompt complaint : text)
    (accept : text -> option text) (rejected : list text)
    (Hr : Forall (fun line => accept line = None) rejected) :
  (forall line value more,
     accept line = Some value ->
     ask prompt complaint accept (rejected ++ line :: more)
     = (flat_map (fun _ => [prompt; complaint ++ [NL]]) rejected ++ [prompt],
        Ok (value, more))) /\
  ask prompt complaint accept rejected
  = (flat_map (fun _ => [prompt; complaint ++ [NL]]) rejected ++ [prompt],
     Raise eof_error).
Proof.
  induction Hr as [|l rejected Hl Hr [IH1 IH2]]; split.
  - intros line value more Ha; simpl; rewrite Ha; reflexivity.
  - reflexivity.
  - intros line value more Ha; simpl; rewrite Hl, (IH1 _ _ _ Ha); reflexivity.
  - simpl; rewrite Hl, IH2; reflexivity.
Qed.

Lemma ask_stops_at_first_valid_witness :
  ask_zipcode (map T ["6270"; "62701"; "90210"]%string)
  = ([T "Enter ZIP code: ";
      T "Invalid ZIP code. Please enter a 5-digit ZIP code." ++ [NL];
      T "Enter ZIP code: "],
     Ok (T "62701", [T "90210"])).
Proof.
  apply (proj1 (@ask_stops_at_first_valid
                  (T "Enter ZIP code: ")
                  (T "Invalid ZIP code. Please enter a 5-digit ZIP code.")
                  accept_zipcode [T "6270"]
                  ltac:(repeat constructor))
               (T "62701") (T "62701") [T "90210"]).
  vm_compute; reflexivity.
Defined.

Lemma ask_ok (prompt complaint : text) (accept : text -> option text)
    (stdin out : list text) (value : text) (rest' : list text) :
  ask prompt complaint accept stdin = (out, Ok (value, rest')) ->
  exists line, In line stdin /\ accept line = Some value.
Proof.
  revert out; induction stdin as [|l stdin IH]; intros out; simpl;
    [discriminate|].
  destruct (accept l) as [v|] eqn:E.
  - intros H; injection H as _ <- _; exists l; auto.
  - destruct (ask prompt complaint accept stdin) as [o r].
    intros H; injection H as _ ->.
    destruct (IH o eq_refl) as (line & Hi & Ha); eauto.
Qed.


Lemma io_bind_ok {A B : Type} (m : io A) (f : A -> io B)
    (stdin out : list text) (b : B) (rest' : list text) :
  io_bind m f stdin = (out, Ok (b, rest')) ->
  exists o1 a s1 o2,
    m stdin = (o1, Ok (a, s1)) /\ f a s1 = (o2, Ok (b, rest')) /\
    out = o1 ++ o2.
Proof.
  unfold io_bind; destruct (m stdin) as [o1 [[a s1]|e]]; [|discriminate].
  destruct (f a s1) as [o2 r] eqn:E.
  intros H; injection H as <- ->; eauto 8.
Qed.


Lemma upper_char_not_small (a : ascii) (n : nat) :
  In n (upper_char a) -> ~ 97 <= n <= 122.
Proof.
  destruct a as [[] [] [] [] [] [] [] []]; vm_compute; intros H;
    repeat (destruct H as [<-|H]; [lia|]); destruct H.
Qed.

Lemma lower_letter_origin (c : ascii) :
  97 <= nat_of_ascii (lower_char c) <= 122 ->
  nat_of_ascii c = nat_of_ascii (lower_char c) \/
  nat_of_ascii c = nat_of_ascii (lower_char c) - 32.
Proof.
  destruct c as [[] [] [] [] [] [] [] []]; vm_compute; intros H;
    solve [lia | left; reflexivity | right; reflexivity].
Qed.

(** An upper-cased text that is a state code but for the letter case is
    the state code. *)
Lemma upper_is_code (l state code : text) :
  as_text (upper l) = Some state -> In code valid_states ->
  lower state = lower code -> state = code.
Proof.
  unfold as_text; intros Ha Hc El.
  destruct (forallb (fun n => n <? 256) (upper l)) eqn:F; [|discriminate].
  injection Ha as <-.
  destruct (state_code_shape Hc) as (x & y & Ep & Hx & Hy & Elc).
  assert (code = [ascii_of_nat x; ascii_of_nat y]) as ->.
  { destruct code as [|a [|b [|c code]]]; try discriminate Ep.
    simpl in Ep; injection Ep as <- <-.
    rewrite !ascii_nat_embedding; reflexivity. }
  rewrite Elc in El; clear Elc Ep Hc.
  assert (forall n, In n (upper l) -> n < 256 /\ ~ 97 <= n <= 122) as Hn.
  { intros n Hi; split.
    - rewrite forallb_forall in F; apply Nat.ltb_lt, F, Hi.
    - unfold upper in Hi; apply in_flat_map in Hi as (a & _ & Hi).
      eapply upper_char_not_small; eauto. }
  clear F; destruct (upper l) as [|p [|q [|r ps]]]; try discriminate El.
  simpl in El; injection El as E1 E2.
  destruct (Hn p (or_introl eq_refl)) as [Lp Np].
  destruct (Hn q (or_intror (or_introl eq_refl))) as [Lq Nq].
  assert (forall n z, n < 256 -> ~ 97 <= n <= 122 -> 65 <= z <= 90 ->
            lower_char (ascii_of_nat n) = ascii_of_nat (z + 32) ->
            ascii_of_nat n = ascii_of_nat z) as K.
  { intros n z Ln Nn Hz E.
    assert (nat_of_ascii (lower_char (ascii_of_nat n)) = z + 32) as E'
      by (rewrite E; apply nat_ascii_embedding; lia).
    destruct (lower_letter_origin (ascii_of_nat n)) as [O|O]; [lia| |];
      rewrite nat_ascii_embedding in O by exact Ln.
    - lia.
    - f_equal; lia. }
  simpl; rewrite (K p x), (K q y); auto.
Qed.

Lemma accept_street_ok (line street : text) :
  accept_street line = Some street ->
  street = strip line /\ validate_street street = true.
Proof.
  unfold accept_street; destruct (validate_street (strip line)) eqn:V;
    [|discriminate].
  intros H; injection H as <-; auto.
Qed.

Lemma accept_city_ok (line city : text) :
  accept_city line = Some city ->
  city = strip line /\ validate_city city = true /\ letter_at_ends city.
Proof.
  unfold accept_city; destruct (validate_city (strip line)) eqn:V;
    [|discriminate].
  intros H; injection H as <-; split; [reflexivity|]. split; [exact V|].
  unfold validate_city in V; rewrite !andb_true_iff in V.
  destruct V as [[Ht _] Hf].
  destruct (strip_ends line) as [H1 H2].
  assert (forall u, forallb (fun c => is_alpha c || is_space c) u = true ->
            match u with c :: _ => is_space c = false | [] => True end ->
            u <> [] ->
            match u with c :: _ => is_alpha c = true | [] => False end) as K.
  { intros [|c u] Hu Hs Hn; [congruence|].
    simpl in Hu; apply andb_prop in Hu as [Hc _].
    rewrite Hs, orb_false_r in Hc; exact Hc. }
  split.
  - apply K; auto. destruct (strip line); [discriminate|discriminate].
  - apply K; auto.
    + rewrite forallb_rev; exact Hf.
    + apply rev_nonempty; destruct (strip line); [discriminate|discriminate].
Qed.

Lemma accept_state_ok (line state : text) :
  accept_state line = Some state ->
  In state valid_states /\ validate_state state = true.
Proof.
  unfold accept_state.
  destruct (as_text (upper (strip line))) as [st|] eqn:A; [|discriminate].
  destruct (validate_state st) eqn:V; [|discriminate].
  intros H; injection H as <-; split; [|exact V].
  destruct (proj1 (validate_state_core st) V) as (code & Hc & El).
  rewrite (upper_is_code _ A Hc El); exact Hc.
Qed.

Lemma accept_zipcode_ok (line zipcode : text) :
  accept_zipcode line = Some zipcode ->
  zipcode = strip line /\ validate_zipcode zipcode = true /\
  zip_shape zipcode.
Proof.
  unfold accept_zipcode; destruct (validate_zipcode (strip line)) eqn:V;
    [|discriminate].
  intros H; injection H as <-; split; [reflexivity|]. split; [exact V|].
  apply validate_zipcode_spec in V as (z & Hz & [E|E]);
    [rewrite E; exact Hz|].
  destruct (strip_ends line) as [_ H2].
  rewrite E, rev_app_distr in H2; simpl in H2; discriminate H2.
Qed.

(** X11.  An address that the four loops of [main] hand on is made of a
    street, a city, a state and a ZIP code that have passed their
    validator after trimming: the street is valid; the city is valid and
    starts and ends with a letter; the state is one of the fifty codes, in
    upper case; the ZIP code is five digits, or five digits, a hyphen and
    four digits, with no newline after it. *)
Theorem read_address_is_validated (stdin out rest' : list text)
    (full_address : text)
    (H : read_address stdin = (out, Ok (full_address, rest'))) :
  exists street city state zipcode,
    full_address
    = street ++ T ", " ++ city ++ T ", " ++ state ++ T " " ++ zipcode /\
    validate_street street = true /\ strip street = street /\
    validate_city city = true /\ letter_at_ends city /\
    validate_state state = true /\ In state valid_states /\
    validate_zipcode zipcode = true /\ zip_shape zipcode.
Proof.
  unfold read_address in H.
  apply io_bind_ok in H as (o1 & street & s1 & o1' & H1 & H & _).
  apply io_bind_ok in H as (o2 & city & s2 & o2' & H2 & H & _).
  apply io_bind_ok in H as (o3 & state & s3 & o3' & H3 & H & _).
  apply io_bind_ok in H as (o4 & zipcode & s4 & o4' & H4 & H & _).
  unfold lift in H; injection H as _ <- _.
  apply ask_ok in H1 as (l1 & _ & A1); apply accept_street_ok in A1 as [E1 V1].
  apply ask_ok in H2 as (l2 & _ & A2);
    apply accept_city_ok in A2 as (_ & V2 & L2).
  apply ask_ok in H3 as (l3 & _ & A3); apply accept_state_ok in A3 as [I3 V3].
  apply ask_ok in H4 as (l4 & _ & A4);
    apply accept_zipcode_ok in A4 as (_ & V4 & Z4).
  exists street, city, state, zipcode; repeat split; auto.
  - rewrite E1; apply strip_idem.
  - apply L2.
  - apply L2.
Qed.

Lemma read_address_is_validated_witness :
  exists street city state zipcode,
    T "123 Main St, Springfield, IL 62701"
    = street ++ T ", " ++ city ++ T ", " ++ state ++ T " " ++ zipcode /\
    In state valid_states.
Proof.
  destruct (@read_address_is_validated
              (map T [" 123 Main St "; "Springfield"; "il"; "62701"]%string)
              [T "Enter street address (e.g., 123 Main Street): ";
               T "Enter city: "; T "Enter state (2-letter code): ";
               T "Enter ZIP code: "]
              [] (T "123 Main St, Springfield, IL 62701"))
    as (street & city & state & zipcode & E & _ & _ & _ & _ & _ & I & _).
  - vm_compute; reflexivity.
  - exists street, city, state, zipcode; auto.
Defined.


(** ** [main] *)

Section MainProperties.

Variable float_str : Q -> text.
Variable money_str : Q -> text.
Variable int_str : Z -> text.

(** X12.  Without a key in the environment, or with an empty one,
    [main] writes one line that names the missing key, and neither
    prompts nor reads. *)
Theorem main_without_key (api_key : option text)
    (connect : text -> client_t) (stdin : list text)
    (H : api_key = None \/ api_key = Some []) :
  main float_str money_str int_str api_key connect stdin
  = [T "Error: OPENAI_API_KEY not found in .env file" ++ [NL]].
Proof. destruct H as [-> | ->]; reflexivity. Qed.


(** X14.  When the retriever raises, [main] ends with the line of the
    unexpected error, which carries the text "Error retrieving home
    information: " and the text of the cause. *)
Theorem main_retrieval_error (key : text) (connect : text -> client_t)
    (stdin out rest' : list text) (full_address : text) (e : exn)
    (Hk : key <> [])
    (Ha : read_address stdin = (out, Ok (full_address, rest')))
    (He : get_home_information (connect key) full_address = Raise e) :
  exists cause,
    exn_str e = T "Error retrieving home information: " ++ cause /\
    main float_str money_str int_str (Some key) connect stdin
    = out ++ [T "An unexpected error occurred: "
              ++ T "Error retrieving home information: " ++ cause
              ++ [NL]].
Proof.
  assert (exists e0, e = retrieval_error e0) as (e0 & ->).
  { rewrite get_home_information_eq in He.
    destruct (connect key overview_system (overview_prompt full_address));
      [|injection He as <-; eauto].
    destruct (_get_property_details (connect key) full_address);
      [discriminate|injection He as <-; eauto]. }
  exists (exn_str e0); split; [reflexivity|].
  unfold main, main_body, new_retriever.
  rewrite (truthy_nonempty Hk); unfold io_bind at 1; cbn [lift].
  unfold io_bind at 1; rewrite Ha.
  unfold io_bind at 1; cbn [lift]; rewrite He.
  rewrite app_nil_r; reflexivity.
Qed.

(** X15.  When the retriever returns a record whose details are absent,
    [main] prints the overview and the first three details as None, and
    then ends with the line of an unexpected error, from the format of
    the estimated value; the year and the schools are not printed. *)
Theorem main_absent_details (key : text) (connect : text -> client_t)
    (stdin out rest' : list text) (full_address : text)
    (info : HomeInformation)
    (Hk : key <> [])
    (Ha : read_address stdin = (out, Ok (full_address, rest')))
    (Hi : get_home_information (connect key) full_address = Ok info)
    (Hd : details info = no_details) :
  main float_str money_str int_str (Some key) connect stdin
  = out ++
    [NL :: T "Property Overview:" ++ [NL];
     overview info ++ [NL];
     NL :: T "Property Details:" ++ [NL];
     T "Square Feet: None" ++ [NL];
     T "Bedrooms: None" ++ [NL];
     T "Bathrooms: None" ++ [NL];
     T "An unexpected error occurred: unsupported format string passed to NoneType.__format__"
     ++ [NL]].
Proof.
  unfold main, main_body, new_retriever.
  rewrite (truthy_nonempty Hk); unfold io_bind at 1; cbn [lift].
  unfold io_bind at 1; rewrite Ha.
  unfold io_bind at 1; cbn [lift]; rewrite Hi.
  unfold print_home; rewrite Hd.
  cbn [io_bind print lift no_details square_feet bedrooms bathrooms
       estimated_value opt_str opt_money app].
  unfold io_bind, print, lift; simpl.
  rewrite <- app_assoc; reflexivity.
Qed.

End MainProperties.


Lemma main_retrieval_error_witness :
  exists cause,
    exn_str (retrieval_error connection_error)
    = T "Error retrieving home information: " ++ cause /\
    main sample_float_str sample_float_str sample_int_str (Some (T "key"))
      (fun _ => canned (Raise connection_error) (Ok sample_details)
                       (Ok sample_three_schools))
      sample_stdin
    = sample_prompts
      ++ [T "An unexpected error occurred: "
          ++ T "Error retrieving home information: " ++ cause ++ [NL]].
Proof.
  apply (@main_retrieval_error sample_float_str sample_float_str
           sample_int_str (T "key") _ sample_stdin sample_prompts []
           sample_full_address (retrieval_error connection_error)).
  - discriminate.
  - vm_compute; reflexivity.
  - vm_compute; reflexivity.
Defined.

Lemma main_absent_details_witness :
  main sample_float_str sample_float_str sample_int_str (Some (T "key"))
    (fun _ => canned (Ok sample_overview) (Ok sample_details_no_bedrooms)
                     (Raise connection_error))
    sample_stdin
  = sample_prompts ++
    [NL :: T "Property Overview:" ++ [NL];
     sample_overview ++ [NL];
     NL :: T "Property Details:" ++ [NL];
     T "Square Feet: None" ++ [NL];
     T "Bedrooms: None" ++ [NL];
     T "Bathrooms: None" ++ [NL];
     T "An unexpected error occurred: unsupported format string passed to NoneType.__format__"
     ++ [NL]].
Proof.
  apply (@main_absent_details sample_float_str sample_float_str
           sample_int_str (T "key") _ sample_stdin sample_prompts []
           sample_full_address
           (mkHomeInformation sample_full_address sample_overview
                              no_details [])).
  - discriminate.
  - vm_compute; reflexivity.
  - vm_compute; reflexivity.
  - reflexivity.
Defined.

(** ** Letter case in the answers of the service *)






















(** ** What [main] prints *)

Lemma main_without_key_witness :
  main sample_float_str sample_float_str sample_int_str None
    (fun _ => canned (Ok sample_overview) (Ok sample_details)
                     (Ok sample_three_schools))
    sample_stdin
  = [T "Error: OPENAI_API_KEY not found in .env file" ++ [NL]].
Proof.
  apply (@main_without_key sample_float_str sample_float_str sample_int_str
           None _ sample_stdin (or_introl eq_refl)).
Defined.

Lemma print_schools_lines (float_str : Q -> text) (schools : list School)
    (stdin : list text) :
  print_schools float_str schools stdin
  = (flat_map (school_lines float_str) schools, Ok (tt, stdin)).
Proof.
  induction schools as [|s schools IH]; [reflexivity|].
  cbn [print_schools]; unfold io_bind, print; rewrite IH; reflexivity.
Qed.

(** X17.  When the retriever returns a record with an estimated value,
    [main] prints, after the prompts, the overview, the five details, and
    for each school, in the order of the record, four lines: name and
    type, distance, rating, and an empty line. *)
Theorem main_prints_record (float_str money_str : Q -> text)
    (int_str : Z -> text) (key : text) (connect : text -> client_t)
    (stdin out rest' : list text) (full_address : text)
    (info : HomeInformation) (value : Q)
    (Hk : key <> [])
    (Ha : read_address stdin = (out, Ok (full_address, rest')))
    (Hi : get_home_information (connect key) full_address = Ok info)
    (Hv : estimated_value (details info) = Some value) :
  main float_str money_str int_str (Some key) connect stdin
  = out ++
    [NL :: T "Property Overview:" ++ [NL];
     overview info ++ [NL];
     NL :: T "Property Details:" ++ [NL];
     (T "Square Feet: "
        ++ opt_str float_str (square_feet (details info))) ++ [NL];
     (T "Bedrooms: " ++ opt_str int_str (bedrooms (details info))) ++ [NL];
     (T "Bathrooms: "
        ++ opt_str float_str (bathrooms (details info))) ++ [NL];
     (T "Estimated Value: $" ++ money_str value) ++ [NL];
     (T "Year Built: "
        ++ opt_str int_str (year_built (details info))) ++ [NL];
     NL :: T "Nearby Schools:" ++ [NL]]
    ++ flat_map (school_lines float_str) (nearby_schools info).
Proof.
  unfold main, main_body, new_retriever.
  rewrite (truthy_nonempty Hk); unfold io_bind at 1; cbn [lift].
  unfold io_bind at 1; rewrite Ha.
  unfold io_bind at 1; cbn [lift]; rewrite Hi.
  unfold print_home; rewrite Hv.
  unfold io_bind, print, lift, opt_money; rewrite print_schools_lines.
  cbn [app]; rewrite <- app_assoc; reflexivity.
Qed.

Lemma main_prints_record_witness :
  exists printed,
    main sample_float_str sample_float_str sample_int_str (Some (T "key"))
      (fun _ => canned (Ok sample_overview) (Ok sample_details)
                       (Raise connection_error))
      sample_stdin
    = sample_prompts ++ printed /\ length printed = 9.
Proof.
  eexists; split.
  - apply (@main_prints_record sample_float_str sample_float_str
             sample_int_str (T "key") _ sample_stdin sample_prompts []
             sample_full_address
             (mkHomeInformation sample_full_address sample_overview
                (mkPropertyDetails (Some (1200 # 1)%Q) (Some 3%Z)
                   (Some (2 # 1)%Q) (Some (450000 # 1)%Q) (Some 1995%Z))
                [])
             (450000 # 1)%Q).
    + discriminate.
    + vm_compute; reflexivity.
    + vm_compute; reflexivity.
    + reflexivity.
  - reflexivity.
Defined.
